(** * Replication setup helper of b2sdk ([b2sdk/replication/setup.py])

    A shallow embedding of [ReplicationSetupHelper] and the properties of
    its key reuse, rule naming and rule priority logic.

    Python values are modelled as follows: [int] is [Z] (unbounded),
    [str] is [string], [Optional[T]] is [option T], a [list] or a tuple is
    a [list], a [set] of strings is a [gset string], and a [dict] is an
    association list in insertion order (its iteration order is observable
    in [_get_destination_key]).  Calls to the storage backend thread an
    explicit backend state; an exception is an [outcome]. *)

From Stdlib Require Import ZArith Ascii String List.
From stdpp Require Import base option list strings gmap pretty.

(** ** Python built-ins used by the module *)

Module Py.

(** [bool(x)] of an [Optional[str]]: [None] and the empty string are falsy. *)
Definition truthy (x : option string) : bool :=
  match x with
  | None => false
  | Some s => negb (String.eqb s "")
  end.

(** [s[:n]]: the first [n] characters, or all of [s] when it is shorter. *)
Fixpoint slice_to (n : nat) (s : string) : string :=
  match n, s with
  | S n', String c s' => String c (slice_to n' s')
  | _, _ => EmptyString
  end.

(** [str(i)] of an [int]. *)
Definition str (i : Z) : string := pretty i.

(** [max(it)] of a non-empty iterable whose first element is [x]. *)
Definition max_from (x : Z) (rest : list Z) : Z := foldl Z.max x rest.

(** A [dict] with its insertion order. *)
Definition dict (K V : Type) : Type := list (K * V).

Section Dict.
Context {K V : Type} `{EqDecision K}.

(** [d[k]] as [d.get(k)]: the value stored under [k], if any. *)
Fixpoint get (k : K) (d : dict K V) : option V :=
  match d with
  | [] => None
  | (k', v) :: d' => if decide (k' = k) then Some v else get k d'
  end.

(** [d[k] = v]: overwrites the value in place when [k] is present,
    appends the entry otherwise. *)
Fixpoint setitem (k : K) (v : V) (d : dict K V) : dict K V :=
  match d with
  | [] => [(k, v)]
  | (k', v') :: d' =>
      if decide (k' = k) then (k', v) :: d' else (k', v') :: setitem k v d'
  end.

(** [d.values()], in iteration order. *)
Definition values (d : dict K V) : list V := d.*2.

(** [d.keys()], in iteration order. *)
Definition keys (d : dict K V) : list K := d.*1.
End Dict.

End Py.

(** ** Outcomes and the backend monad *)

Inductive exn : Type :=
  | AttributeError
  | ValueError
  | BackendError (reason : string).

(** The result of running a piece of the helper: a value, a raised
    exception, or a loop that did not finish within the iterations it was
    allowed. *)
Inductive outcome (A : Type) : Type :=
  | Ok (a : A)
  | Raise (e : exn)
  | OutOfFuel.
Arguments Ok {A} a.
Arguments Raise {A} e.
Arguments OutOfFuel {A}.

Global Instance outcome_ret : MRet outcome := λ A a, Ok a.
Global Instance outcome_bind : MBind outcome := λ A B f o,
  match o with
  | Ok a => f a
  | Raise e => Raise e
  | OutOfFuel => OutOfFuel
  end.

(** [x.field] where [x] may be [None]: reading an attribute of [None]
    raises [AttributeError]. *)
Definition attr {A B} (x : option A) (field : A → B) : outcome B :=
  match x with
  | Some a => Ok (field a)
  | None => Raise AttributeError
  end.

(** [try: e / except (NameError, AttributeError): default]. *)
Definition except_AttributeError {A} (e : outcome A) (default : A) : outcome A :=
  match e with
  | Raise AttributeError => Ok default
  | _ => e
  end.

(** A computation over the backend state [St]. *)
Definition M (St A : Type) : Type := St → outcome (A * St).

Global Instance M_ret {St} : MRet (M St) := λ A a s, Ok (a, s).
Global Instance M_bind {St} : MBind (M St) := λ A B f m s,
  match m s with
  | Ok (a, s') => f a s'
  | Raise e => Raise e
  | OutOfFuel => OutOfFuel
  end.

Definition raise {St A} (e : exn) : M St A := λ _, Raise e.
Definition out_of_fuel {St A} : M St A := λ _, OutOfFuel.
Definition gets {St A} (f : St → A) : M St A := λ s, Ok (f s, s).
Definition modify_with {St A} (f : St → A * St) : M St A := λ s, Ok (f s).
Definition lift {St A} (o : outcome A) : M St A := λ s,
  match o with
  | Ok a => Ok (a, s)
  | Raise e => Raise e
  | OutOfFuel => OutOfFuel
  end.

(** ** Data model *)

(** Modelled from the spec: the dataclass [ReplicationRule] of
    [b2sdk/replication/setting.py] (section 3, Data model).  The record
    holds the fields; the bound [1, MAX_PRIORITY] on the priority is what
    the constructor enforces, see [ReplicationRule_post_init] below. *)
Record ReplicationRule : Type := {
  rule_name : string;
  rule_priority : Z;
  destination_bucket_id : string;
  file_name_prefix : string;
  include_existing_files : bool;
}.

(** Modelled from the spec: [ReplicationSourceConfiguration]. *)
Record ReplicationSourceConfiguration : Type := {
  source_application_key_id : option string;
  rules : list ReplicationRule;
}.

(** Modelled from the spec: [ReplicationDestinationConfiguration]. *)
Record ReplicationDestinationConfiguration : Type := {
  source_to_destination_key_mapping : Py.dict string string;
}.

(** Modelled from the spec: [ReplicationConfiguration], an optional source
    side and an optional destination side. *)
Record ReplicationConfiguration : Type := {
  as_replication_source : option ReplicationSourceConfiguration;
  as_replication_destination : option ReplicationDestinationConfiguration;
}.

(** Modelled from the spec: [ApplicationKey] of [b2sdk/application_key.py]. *)
Record ApplicationKey : Type := {
  key_id_ : string;
  key_name : string;
  name_prefix : option string;
  capabilities : list string;
}.

(** Modelled from the spec: [ApplicationKey.has_capabilities], a plain
    containment test of the required capabilities in the key's. *)
Definition has_capabilities (key : ApplicationKey) (required : list string) : bool :=
  bool_decide (required ⊆ capabilities key).

(** Modelled from the spec: the fields of [Bucket] that the helper reads.
    The bucket's [api] is the backend state threaded by [M]. *)
Record Bucket : Type := {
  id_ : string;
  name : string;
  revision : Z;
  replication : option ReplicationConfiguration;
}.

(** Modelled from the spec: the operations consumed from the backend
    (section 6): [B2Api.get_key], [B2Api.create_key] and [Bucket.update].
    A created key carries the attributes it was requested with. *)
Class B2Api (St : Type) : Type := {
  get_key : option string → St → option ApplicationKey;
  create_key : list string → string → string → option string → St → ApplicationKey * St;
  update : Bucket → Z → ReplicationConfiguration → M St Bucket;
  create_key_attributes caps key_name' bucket_id prefix s :
    let key := (create_key caps key_name' bucket_id prefix s).1 in
    capabilities key = caps ∧ key_name key = key_name' ∧ name_prefix key = prefix;
}.

(** ** The helper *)

Section ReplicationSetupHelper.

(** [ReplicationRule.DEFAULT_PRIORITY] and [ReplicationRule.MAX_PRIORITY]
    are class constants of [b2sdk/replication/setting.py]. *)
Variables DEFAULT_PRIORITY MAX_PRIORITY : Z.

(** What the constructor of [ReplicationRule] checks besides the bound on
    the priority (the rule name, for one): the class is not among the
    sources, so these checks are a parameter. *)
Variable ReplicationRule_checks : ReplicationRule → bool.

Context {St : Type} `{!B2Api St}.

Definition PRIORITY_OFFSET : Z := 5.

(** The rule passes the checks of the constructor. *)
Definition rule_accepted (rr : ReplicationRule) : bool :=
  ReplicationRule_checks rr
  && bool_decide (1 ≤ rule_priority rr ≤ MAX_PRIORITY)%Z.

(** Modelled from the spec: the constructor [ReplicationRule(...)], which
    keeps the priority within [1, MAX_PRIORITY] (section 3): a rule that
    fails a check is not created and [ValueError] is raised. *)
Definition ReplicationRule_post_init (rr : ReplicationRule) : outcome ReplicationRule :=
  if rule_accepted rr then Ok rr else Raise ValueError.

Definition DEFAULT_SOURCE_CAPABILITIES : list string :=
  ["readFiles"; "readFileLegalHolds"; "readFileRetentions"].

Definition DEFAULT_DESTINATION_CAPABILITIES : list string :=
  ["writeFiles"; "writeFileLegalHolds"; "writeFileRetentions"; "deleteFiles"].

(** *** Rule priority *)

Definition _get_priority_for_new_rule
    (current_rules : list ReplicationRule) (priority : option Z) : Z :=
  match priority with
  | Some p => p
  | None =>
      match current_rules with
      | rr :: rest =>
          let existing_priority :=
            Py.max_from (rule_priority rr) (rule_priority <$> rest) in
          Z.min (existing_priority + PRIORITY_OFFSET) MAX_PRIORITY
      | [] => DEFAULT_PRIORITY
      end
  end.

(** *** Rule name *)

(** The iterator [map(str, itertools.chain([''], itertools.count(2)))]:
    what is left of the first iterable, and the counter's next value. *)
Record suffix_iterator : Type := {
  chain_head : list string;
  count_next : Z;
}.

Definition _get_rule_name_candidate_suffixes : suffix_iterator :=
  {| chain_head := [""]; count_next := 2 |}.

(** [next(suffixes)]: the element and the advanced iterator. *)
Definition next (it : suffix_iterator) : string * suffix_iterator :=
  match chain_head it with
  | x :: rest => (x, {| chain_head := rest; count_next := count_next it |})
  | [] => (Py.str (count_next it),
           {| chain_head := []; count_next := (count_next it + 1)%Z |})
  end.

(** The [while True] loop of [_get_new_rule_name], run for at most [fuel]
    iterations. *)
Fixpoint _get_new_rule_name_loop (fuel : nat) (existing_names : gset string)
    (bucket_name : string) (suffixes : suffix_iterator) : option string :=
  match fuel with
  | O => None
  | S fuel' =>
      let '(suffix, suffixes') := next suffixes in
      let candidate := bucket_name +:+ suffix in
      if decide (candidate ∈ existing_names)
      then _get_new_rule_name_loop fuel' existing_names bucket_name suffixes'
      else Some candidate
  end.

Definition _get_new_rule_name (fuel : nat)
    (current_rules : list ReplicationRule) (destination_bucket : Bucket)
    (name' : option string) : option string :=
  match name' with
  | Some n => Some n
  | None =>
      let existing_names : gset string := list_to_set (rule_name <$> current_rules) in
      let suffixes := _get_rule_name_candidate_suffixes in
      _get_new_rule_name_loop fuel existing_names (name destination_bucket) suffixes
  end.

(** *** Keys *)

Definition _create_key (name' : string) (bucket : Bucket)
    (prefix : option string) (capabilities' : list string) : M St ApplicationKey :=
  modify_with (create_key capabilities' name' (id_ bucket) prefix).

Definition _create_source_key (name' : string) (bucket : Bucket)
    (prefix : option string) : M St ApplicationKey :=
  (* the prefix is ignored and a full key is created *)
  let prefix := None in
  let capabilities' := DEFAULT_SOURCE_CAPABILITIES in
  _create_key name' bucket prefix capabilities'.

Definition _create_destination_key (name' : string) (bucket : Bucket)
    (prefix : option string) : M St ApplicationKey :=
  let capabilities' := DEFAULT_DESTINATION_CAPABILITIES in
  _create_key name' bucket prefix capabilities'.

(** The attribute chain
    [cfg.as_replication_source.source_application_key_id]. *)
Definition source_application_key_id_of
    (cfg : ReplicationConfiguration) : outcome (option string) :=
  attr (as_replication_source cfg) source_application_key_id.

Definition _should_make_new_source_key
    (current_replication_configuration : ReplicationConfiguration)
    (current_source_key : option ApplicationKey) : outcome bool :=
  key_id ← source_application_key_id_of current_replication_configuration;
  match key_id with
  | None => Ok true
  | Some _ =>
      match current_source_key with
      | None => Ok true
      | Some key =>
          if Py.truthy (name_prefix key) then Ok true
          else if negb (has_capabilities key DEFAULT_SOURCE_CAPABILITIES) then Ok true
          else Ok false (* current key is ok *)
      end
  end.

(** [source_bucket.replication] is passed as it is, so the configuration
    may be [None] here. *)
Definition _get_source_key (source_bucket : Bucket) (prefix : string)
    (current_replication_configuration : option ReplicationConfiguration)
    (current_source_rules : list ReplicationRule) : M St (option ApplicationKey) :=
  match current_replication_configuration with
  | None => raise AttributeError
  | Some cfg =>
      key_id ← lift (source_application_key_id_of cfg);
      current_source_key ← gets (get_key key_id);
      do_create_key ← lift (_should_make_new_source_key cfg current_source_key);
      if negb do_create_key then mret current_source_key
      else
        new_key ← _create_source_key
          (Py.slice_to 91 (name source_bucket) +:+ "-replisrc")
          source_bucket (Some prefix);
        mret (Some new_key)
  end.

(** One iteration of the scan of [_get_destination_key] over the mapped
    destination key ids; [acc] is [(keys_to_purge, key)]. *)
Definition _get_destination_key_step (s : St)
    (acc : list string * option ApplicationKey)
    (current_destination_key_id : string) : list string * option ApplicationKey :=
  let '(keys_to_purge, key) := acc in
  match get_key (Some current_destination_key_id) s with
  | None => (keys_to_purge ++ [current_destination_key_id], key)
  | Some current_destination_key =>
      if has_capabilities current_destination_key DEFAULT_DESTINATION_CAPABILITIES
         && negb (Py.truthy (name_prefix current_destination_key))
      then (keys_to_purge, Some current_destination_key)
           (* not breaking here since we want to fill the purge list *)
      else (keys_to_purge, key)
  end.

Definition _get_destination_key (destination_bucket : Bucket)
    (destination_configuration : ReplicationDestinationConfiguration)
    : M St (list string * ApplicationKey) := λ s,
  let current_destination_key_ids :=
    Py.values (source_to_destination_key_mapping destination_configuration) in
  let '(keys_to_purge, key) :=
    foldl (_get_destination_key_step s) ([], None) current_destination_key_ids in
  match key with
  | Some key => Ok ((keys_to_purge, key), s)
  | None =>
      (new_key ← _create_destination_key
         (Py.slice_to 91 (name destination_bucket) +:+ "-replidst")
         destination_bucket None;
       mret (keys_to_purge, new_key)) s
  end.

(** *** Setting up the two sides *)

Definition setup_destination (source_key_id : string)
    (destination_bucket : Bucket) : M St Bucket :=
  let source_configuration :=
    match replication destination_bucket with
    | None => None
    | Some cfg => as_replication_source cfg
    end in
  let destination_configuration :=
    match replication destination_bucket ≫= as_replication_destination with
    | None => {| source_to_destination_key_mapping := [] |}
    | Some dst => dst
    end in
  '(keys_to_purge, destination_key) ←
    _get_destination_key destination_bucket destination_configuration;
  let destination_configuration :=
    {| source_to_destination_key_mapping :=
         Py.setitem source_key_id (key_id_ destination_key)
           (source_to_destination_key_mapping destination_configuration) |} in
  let new_replication_configuration :=
    {| as_replication_source := source_configuration;
       as_replication_destination := Some destination_configuration |} in
  update destination_bucket (revision destination_bucket)
    new_replication_configuration.

(** The new rule is built by the constructor after the source key was
    resolved, or created, and before anything is submitted.  An outcome
    that is a raise does not record the backend state. *)
Definition setup_source (fuel : nat)
    (source_bucket destination_bucket : Bucket) (prefix : option string)
    (name' : option string) (priority : option Z)
    (include_existing_files' : bool) : M St Bucket :=
  let prefix := default "" prefix in
  current_source_rules ← lift (except_AttributeError
    (src ← attr (replication source_bucket) as_replication_source;
     attr src rules) []);
  destination_configuration ← lift (except_AttributeError
    (attr (replication source_bucket) as_replication_destination) None);
  source_key ← _get_source_key source_bucket prefix
    (replication source_bucket) current_source_rules;
  let priority :=
    _get_priority_for_new_rule current_source_rules priority in
  name' ← from_option mret out_of_fuel
    (_get_new_rule_name fuel current_source_rules destination_bucket name');
  new_rr ← lift (ReplicationRule_post_init
    {| rule_name := name';
       rule_priority := priority;
       destination_bucket_id := id_ destination_bucket;
       file_name_prefix := prefix;
       include_existing_files := include_existing_files' |});
  source_key_id ← lift (attr source_key key_id_);
  let new_replication_configuration :=
    {| as_replication_source :=
         Some {| source_application_key_id := Some source_key_id;
                 rules := current_source_rules ++ [new_rr] |};
       as_replication_destination := destination_configuration |} in
  update source_bucket (revision source_bucket) new_replication_configuration.

End ReplicationSetupHelper.

(** ** Notions of the specification

    The definitions below follow the words of the specification; the
    theorems compare the helper with them. *)

(** The suffix sequence [""], ["2"], ["3"], ["4"], ... (0-indexed). *)
Definition suffix (n : nat) : string :=
  match n with
  | O => ""
  | S _ => Py.str (Z.of_nat (S n))
  end.

(** The [n]-th candidate rule name for a destination bucket name. *)
Definition candidate (bucket_name : string) (n : nat) : string :=
  bucket_name +:+ suffix n.

(** A priority that a replication rule may carry. *)
Definition priority_in_range (MAX_PRIORITY p : Z) : Prop :=
  (1 ≤ p ≤ MAX_PRIORITY)%Z.

(** A key that is fit for the destination side: all of
    [DEFAULT_DESTINATION_CAPABILITIES] and no name prefix restriction. *)
Definition fit_for_destination (key : ApplicationKey) : Prop :=
  DEFAULT_DESTINATION_CAPABILITIES ⊆ capabilities key
  ∧ (name_prefix key = None ∨ name_prefix key = Some "").

Global Instance fit_for_destination_dec key : Decision (fit_for_destination key).
Proof. unfold fit_for_destination. apply _. Defined.

(** The suffix iterator after [n] calls of [next]. *)
Definition suffixes_after (n : nat) : suffix_iterator :=
  match n with
  | O => _get_rule_name_candidate_suffixes
  | S _ => {| chain_head := []; count_next := (Z.of_nat n + 1)%Z |}
  end.

(** ** A simulated backend

    An instance of the backend interface that keeps the account's keys and
    the revision of every bucket, used to run the helper on concrete
    buckets. *)

Module Simulator.

Record backend : Type := {
  stored_keys : list ApplicationKey;
  key_counter : Z;
  bucket_revisions : Py.dict string Z;
}.

Definition sim_get_key (key_id : option string) (s : backend) : option ApplicationKey :=
  key_id ≫= λ id, List.find (λ k, String.eqb (key_id_ k) id) (stored_keys s).

Definition sim_create_key (caps : list string) (key_name' bucket_id : string)
    (prefix : option string) (s : backend) : ApplicationKey * backend :=
  let key :=
    {| key_id_ := "K" +:+ Py.str (key_counter s);
       key_name := key_name';
       name_prefix := prefix;
       capabilities := caps |} in
  (key, {| stored_keys := stored_keys s ++ [key];
           key_counter := (key_counter s + 1)%Z;
           bucket_revisions := bucket_revisions s |}).

(** The conditional write: refused unless the stored revision is the one
    the caller read. *)
Definition sim_update (b : Bucket) (if_revision_is : Z)
    (cfg : ReplicationConfiguration) : M backend Bucket := λ s,
  match Py.get (id_ b) (bucket_revisions s) with
  | None => Raise (BackendError "no such bucket")
  | Some r =>
      if decide (r = if_revision_is)
      then Ok ({| id_ := id_ b; name := name b; revision := (r + 1)%Z;
                  replication := Some cfg |},
               {| stored_keys := stored_keys s;
                  key_counter := key_counter s;
                  bucket_revisions := Py.setitem (id_ b) (r + 1)%Z (bucket_revisions s) |})
      else Raise (BackendError "revision conflict")
  end.

Global Instance sim_api : B2Api backend := {|
  get_key := sim_get_key;
  create_key := sim_create_key;
  update := sim_update;
  create_key_attributes := λ _ _ _ _ _, conj eq_refl (conj eq_refl eq_refl);
|}.

(** Sample checks of a rule: a destination bucket id that is not empty and
    a name of 1 to 64 characters out of letters, digits, "_" and "-". *)
Definition name_char_accepted (c : ascii) : bool :=
  let n := nat_of_ascii c in
  (Nat.leb 65 n && Nat.leb n 90) || (Nat.leb 97 n && Nat.leb n 122)
  || (Nat.leb 48 n && Nat.leb n 57) || Nat.eqb n 95 || Nat.eqb n 45.

Definition sample_checks (rr : ReplicationRule) : bool :=
  negb (String.eqb (destination_bucket_id rr) "")
  && Nat.leb 1 (String.length (rule_name rr))
  && Nat.leb (String.length (rule_name rr)) 64
  && forallb name_char_accepted (list_ascii_of_string (rule_name rr)).

(** The values [ReplicationRule] gives the two priority constants (the
    maximum is the one the comment in [_get_priority_for_new_rule] names). *)
Definition DEFAULT_PRIORITY : Z := 128.
Definition MAX_PRIORITY : Z := 2147483647.

(** Sample keys, buckets and backend states. *)
Definition full_source_key : ApplicationKey :=
  {| key_id_ := "K1"; key_name := "src-1-replisrc"; name_prefix := None;
     capabilities := ["listFiles"; "readFiles"; "readFileLegalHolds"; "readFileRetentions"] |}.

Definition prefixed_source_key : ApplicationKey :=
  {| key_id_ := "K2"; key_name := "narrow"; name_prefix := Some "photos/";
     capabilities := DEFAULT_SOURCE_CAPABILITIES |}.

Definition weak_destination_key : ApplicationKey :=
  {| key_id_ := "K3"; key_name := "weak"; name_prefix := None;
     capabilities := ["writeFiles"] |}.

Definition destination_key_a : ApplicationKey :=
  {| key_id_ := "K4"; key_name := "dest-1-replidst"; name_prefix := None;
     capabilities := DEFAULT_DESTINATION_CAPABILITIES |}.

Definition destination_key_b : ApplicationKey :=
  {| key_id_ := "K5"; key_name := "other"; name_prefix := Some "";
     capabilities := "listFiles" :: DEFAULT_DESTINATION_CAPABILITIES |}.

Definition backend0 : backend :=
  {| stored_keys := [full_source_key; prefixed_source_key; weak_destination_key;
                     destination_key_a; destination_key_b];
     key_counter := 6;
     bucket_revisions := [("b-src", 3%Z); ("b-dst", 7%Z)] |}.

Definition rule (n : string) (p : Z) : ReplicationRule :=
  {| rule_name := n; rule_priority := p; destination_bucket_id := "b-dst";
     file_name_prefix := ""; include_existing_files := false |}.

Definition empty_source_bucket : Bucket :=
  {| id_ := "b-src"; name := "src-1"; revision := 3; replication := None |}.

Definition sample_rules : list ReplicationRule :=
  [rule "dest-1" 128; rule "dest-12" 133].

Definition configured_source_side : ReplicationSourceConfiguration :=
  {| source_application_key_id := Some "K1"; rules := sample_rules |}.

Definition configured_source_configuration : ReplicationConfiguration :=
  {| as_replication_source := Some configured_source_side;
     as_replication_destination := Some
       {| source_to_destination_key_mapping := [("K9", "K4")] |} |}.

Definition configured_source_bucket : Bucket :=
  {| id_ := "b-src"; name := "src-1"; revision := 3;
     replication := Some configured_source_configuration |}.

(** A source side whose key is restricted to a name prefix. *)
Definition prefixed_source_side : ReplicationSourceConfiguration :=
  {| source_application_key_id := Some "K2"; rules := sample_rules |}.

Definition prefixed_source_configuration : ReplicationConfiguration :=
  {| as_replication_source := Some prefixed_source_side;
     as_replication_destination := None |}.

(** A configuration with no source side. *)
Definition sourceless_configuration : ReplicationConfiguration :=
  {| as_replication_source := None;
     as_replication_destination := Some
       {| source_to_destination_key_mapping := [("K9", "K4")] |} |}.

Definition destination_bucket : Bucket :=
  {| id_ := "b-dst"; name := "dest-1"; revision := 7;
     replication := Some
       {| as_replication_source := None;
          as_replication_destination := Some
            {| source_to_destination_key_mapping :=
                 [("S1", "K4"); ("S2", "gone"); ("S3", "K3"); ("S4", "K5"); ("S5", "lost")] |} |} |}.

End Simulator.

(** ** More of the helper *)

(** [s.partition(sep)] for a separator of one character: the part before
    the first occurrence of [sep], the separator, and the part after it;
    the string itself and two empty strings when [sep] does not occur. *)
Fixpoint str_partition (sep : ascii) (s : string) : string * string * string :=
  match s with
  | EmptyString => ("", "", "")
  | String c s' =>
      if Ascii.eqb c sep then ("", String sep "", s')
      else let '(before, found, after) := str_partition sep s' in
           (String c before, found, after)
  end.

Definition _partion_bucket_path (bucket_path : string) : string * string :=
  let '(bucket_name, _, path) := str_partition "/" bucket_path in
  (bucket_name, path).

(** [[next(a) for i in range(n)]], as in the doctest of
    [_get_rule_name_candidate_suffixes]. *)
Fixpoint first_suffixes (n : nat) (a : suffix_iterator) : list string :=
  match n with
  | O => []
  | S n' => let '(x, a') := next a in x :: first_suffixes n' a'
  end.

(** The string has a slash in it. *)
Definition has_slash (s : string) : Prop :=
  "/"%char ∈ list_ascii_of_string s.

(** A key that is fit for the source side: all of
    [DEFAULT_SOURCE_CAPABILITIES] and no name prefix restriction. *)
Definition fit_for_source (key : ApplicationKey) : Prop :=
  DEFAULT_SOURCE_CAPABILITIES ⊆ capabilities key
  ∧ (name_prefix key = None ∨ name_prefix key = Some "").

(** A bucket whose name is longer than the 91 characters a key name keeps. *)
Definition long_named_bucket : Bucket :=
  {| id_ := "b-long";
     name := "a-bucket-name-that-is-much-longer-than-what-fits-into-the-name-of-an-application-key-together-with-its-suffix";
     revision := 1;
     replication := None |}.

(** Rules of which one already has the largest priority. *)
Definition capped_rules : list ReplicationRule :=
  [Simulator.rule "dest-1" 128; Simulator.rule "dest-12" 2147483647].

(** A destination side whose only mapped key lacks capabilities. *)
Definition weak_destination_side : ReplicationDestinationConfiguration :=
  {| source_to_destination_key_mapping := [("S2", "gone"); ("S3", "K3")] |}.

(** ** Properties *)

(** *** The backend monad *)

Lemma bind_lift_Ok {St A B} (a : A) (f : A → M St B) (s : St) :
  (lift (Ok a) ≫= f) s = f a s.
Proof. done. Qed.

Lemma bind_Ok {St A B} (m : M St A) (f : A → M St B) (s s' : St) (a : A) :
  m s = Ok (a, s') → (m ≫= f) s = f a s'.
Proof. intros Hm. unfold mbind, M_bind. by rewrite Hm. Qed.

Lemma bind_Raise {St A B} (m : M St A) (f : A → M St B) (s : St) e :
  m s = Raise e → (m ≫= f) s = Raise e.
Proof. intros Hm. unfold mbind, M_bind. by rewrite Hm. Qed.

(** *** Python built-ins *)

Lemma truthy_true_iff (x : option string) :
  Py.truthy x = true ↔ ∃ p, x = Some p ∧ p ≠ "".
Proof.
  destruct x as [p|]; simpl.
  - rewrite negb_true_iff, String.eqb_neq. split.
    + intros Hp. by exists p.
    + by intros (p' & [= <-] & Hp).
  - split; [done|]. by intros (p & ? & _).
Qed.

Lemma truthy_false_iff (x : option string) :
  Py.truthy x = false ↔ x = None ∨ x = Some "".
Proof.
  destruct x as [p|]; simpl.
  - rewrite negb_false_iff, String.eqb_eq. split.
    + intros ->. by right.
    + by intros [?|[= ->]].
  - split; [by left|done].
Qed.

Lemma max_from_elem (x : Z) (l : list Z) : Py.max_from x l ∈ x :: l.
Proof.
  unfold Py.max_from. revert x. induction l as [|y l IH]; intros x; simpl.
  - left.
  - specialize (IH (Z.max x y)). apply elem_of_cons in IH as [->|IH].
    + destruct (Z.max_spec x y) as [[_ ->]|[_ ->]].
      * right. left.
      * left.
    + do 2 right. done.
Qed.

Lemma max_from_ge_first (x : Z) (l : list Z) : (x ≤ Py.max_from x l)%Z.
Proof.
  unfold Py.max_from. revert x. induction l as [|y l IH]; intros x; simpl.
  - lia.
  - etrans; [|apply IH]. lia.
Qed.

Lemma max_from_upper (x : Z) (l : list Z) q :
  q ∈ x :: l → (q ≤ Py.max_from x l)%Z.
Proof.
  revert x. induction l as [|y l IH]; intros x Hq.
  - apply list_elem_of_singleton in Hq as ->. apply max_from_ge_first.
  - change (Py.max_from x (y :: l)) with (Py.max_from (Z.max x y) l).
    apply elem_of_cons in Hq as [->|Hq].
    + etrans; [|apply max_from_ge_first]. lia.
    + apply elem_of_cons in Hq as [->|Hq].
      * etrans; [|apply max_from_ge_first]. lia.
      * apply IH. by right.
Qed.

Lemma str_nonempty (i : Z) : Py.str i ≠ "".
Proof.
  assert (Hgo : ∀ x s, String.length s ≤ String.length (pretty_N_go x s)).
  { intros x. induction (N.lt_wf_0 x) as [x _ IH]; intros s.
    destruct (decide (x = 0%N)) as [->|Hx].
    - by rewrite pretty_N_go_0.
    - rewrite pretty_N_go_step by lia.
      etrans; [|apply IH; apply N.div_lt; lia]. simpl. lia. }
  assert (HN : ∀ x : N, pretty x ≠ "").
  { intros x. unfold pretty, pretty_N. case_decide; [done|].
    intros Hx. pose proof (Hgo x "") as Hlen.
    rewrite pretty_N_go_step in Hlen, Hx by lia.
    pose proof (Hgo (x `div` 10)%N (String (pretty_N_char (x `mod` 10)) "")) as Hlen'.
    rewrite Hx in Hlen'. simpl in Hlen'. lia. }
  unfold Py.str, pretty, pretty_Z. destruct i as [|p|p]; [done|apply HN|done].
Qed.

(** *** Rule priority *)

Section Priority.
Variables DEFAULT_PRIORITY MAX_PRIORITY : Z.

Lemma new_priority_computed rr rest :
  ∃ m, m ∈ rule_priority <$> rr :: rest
     ∧ (∀ q, q ∈ rule_priority <$> rr :: rest → (q ≤ m)%Z)
     ∧ _get_priority_for_new_rule DEFAULT_PRIORITY MAX_PRIORITY (rr :: rest) None = Z.min (m + 5) MAX_PRIORITY.
Proof.
  exists (Py.max_from (rule_priority rr) (rule_priority <$> rest)).
  split; [apply max_from_elem|]. split; [apply max_from_upper|done].
Qed.

(** C2: an explicit priority is returned verbatim; with no explicit
    priority and a non-empty rule list the result is the largest existing
    priority plus 5, capped at [MAX_PRIORITY]; with no explicit priority
    and no rule it is [DEFAULT_PRIORITY]. *)
Theorem get_priority_for_new_rule_spec (R : list ReplicationRule) :
  (∀ p, _get_priority_for_new_rule DEFAULT_PRIORITY MAX_PRIORITY R (Some p) = p)
  ∧ (R ≠ [] →
     ∃ m, m ∈ rule_priority <$> R
        ∧ (∀ q, q ∈ rule_priority <$> R → (q ≤ m)%Z)
        ∧ _get_priority_for_new_rule DEFAULT_PRIORITY MAX_PRIORITY R None = Z.min (m + 5) MAX_PRIORITY)
  ∧ (R = [] → _get_priority_for_new_rule DEFAULT_PRIORITY MAX_PRIORITY R None = DEFAULT_PRIORITY).
Proof.
  split; [done|]. split.
  - destruct R as [|rr rest]; [done|]. intros _. apply new_priority_computed.
  - by intros ->.
Qed.

(** A computed priority is within [1, MAX_PRIORITY] whenever every existing
    priority is and [DEFAULT_PRIORITY] is; an explicit priority is within
    the range exactly when the caller's value is. *)
Lemma get_priority_for_new_rule_computed_in_range (R : list ReplicationRule) :
  priority_in_range MAX_PRIORITY DEFAULT_PRIORITY →
  Forall (λ rr, priority_in_range MAX_PRIORITY (rule_priority rr)) R →
  priority_in_range MAX_PRIORITY (_get_priority_for_new_rule DEFAULT_PRIORITY MAX_PRIORITY R None)
  ∧ ∀ p, priority_in_range MAX_PRIORITY (_get_priority_for_new_rule DEFAULT_PRIORITY MAX_PRIORITY R (Some p))
         ↔ priority_in_range MAX_PRIORITY p.
Proof.
  intros Hdefault HR. split; [|done].
  destruct R as [|rr rest]; [done|].
  destruct (new_priority_computed rr rest) as (m & Hm & _ & ->).
  apply list_elem_of_fmap in Hm as (r & -> & Hr).
  rewrite Forall_forall in HR. apply HR in Hr.
  unfold priority_in_range in *. lia.
Qed.
End Priority.

(** *** Rule name *)

Lemma next_suffixes_after (n : nat) :
  next (suffixes_after n) = (suffix n, suffixes_after (S n)).
Proof.
  destruct n as [|n]; [done|].
  unfold next, suffixes_after, suffix; simpl chain_head; simpl count_next.
  do 3 f_equal; lia.
Qed.

Lemma suffix_inj : Inj (=) (=) suffix.
Proof.
  intros [|i] [|j] Hij; simpl in Hij.
  - done.
  - by destruct (str_nonempty (Z.of_nat (S (S j)))).
  - by destruct (str_nonempty (Z.of_nat (S (S i)))).
  - unfold Py.str in Hij. apply (inj pretty) in Hij. lia.
Qed.

Lemma candidate_inj bucket_name : Inj (=) (=) (candidate bucket_name).
Proof.
  intros i j Hij. unfold candidate in Hij.
  by apply (inj (String.app bucket_name)), suffix_inj in Hij.
Qed.

(** The loop returns the first candidate that is free, given enough
    iterations to reach it. *)
Lemma loop_returns_first_free existing bucket_name n : ∀ k fuel,
  (∀ j, k ≤ j < k + n → candidate bucket_name j ∈ existing) →
  candidate bucket_name (k + n) ∉ existing →
  n < fuel →
  _get_new_rule_name_loop fuel existing bucket_name (suffixes_after k)
  = Some (candidate bucket_name (k + n)).
Proof.
  induction n as [|n IH]; intros k [|fuel] Htaken Hfree Hfuel; try lia.
  - simpl. rewrite next_suffixes_after. rewrite Nat.add_0_r in Hfree |- *.
    fold (candidate bucket_name k). by rewrite decide_False.
  - simpl. rewrite next_suffixes_after. fold (candidate bucket_name k).
    rewrite decide_True by (apply Htaken; lia).
    replace (k + S n) with (S k + n) in * by lia.
    apply IH; [|done|lia]. intros j Hj. apply Htaken. lia.
Qed.

(** The loop gives up only when every candidate it tried is taken. *)
Lemma loop_exhausted existing bucket_name fuel : ∀ k,
  (∀ j, k ≤ j < k + fuel → candidate bucket_name j ∈ existing) →
  _get_new_rule_name_loop fuel existing bucket_name (suffixes_after k) = None.
Proof.
  induction fuel as [|fuel IH]; intros k Htaken; [done|].
  simpl. rewrite next_suffixes_after. fold (candidate bucket_name k).
  rewrite decide_True by (apply Htaken; lia).
  apply IH. intros j Hj. apply Htaken. lia.
Qed.

(** Either some candidate among the first [n] is free, and then there is a
    first one, or all of them are taken. *)
Lemma first_free_or_all_taken (existing : gset string) bucket_name n :
  (∃ k, k < n ∧ (candidate bucket_name k ∉ existing)
        ∧ ∀ j, j < k → candidate bucket_name j ∈ existing)
  ∨ (∀ j, j < n → candidate bucket_name j ∈ existing).
Proof.
  induction n as [|n [(k & Hk & Hfree & Hfirst)|Hall]].
  - right. intros j Hj. lia.
  - left. exists k. split; [lia|done].
  - destruct (decide (candidate bucket_name n ∈ existing)) as [Hn|Hn].
    + right. intros j Hj. destruct (decide (j = n)) as [->|]; [done|].
      apply Hall. lia.
    + left. exists n. split; [lia|]. split; [done|]. intros j Hj. by apply Hall.
Qed.

(** A set with fewer than [n] elements misses one of the first [n]
    candidates. *)
Lemma candidates_not_all_taken (existing : gset string) bucket_name n :
  size existing < n →
  ¬ ∀ j, j < n → candidate bucket_name j ∈ existing.
Proof.
  intros Hsize Hall.
  assert (Hsub : list_to_set (candidate bucket_name <$> seq 0 n) ⊆ existing).
  { intros c Hc. apply elem_of_list_to_set, list_elem_of_fmap in Hc as (j & -> & Hj).
    apply Hall. apply elem_of_seq in Hj. lia. }
  apply subseteq_size in Hsub.
  rewrite size_list_to_set in Hsub
    by apply (@NoDup_fmap_2 _ _ _ (candidate_inj bucket_name)), NoDup_seq.
  rewrite length_fmap, length_seq in Hsub. lia.
Qed.

Lemma size_existing_names (R : list ReplicationRule) :
  size (list_to_set (rule_name <$> R) : gset string) ≤ length R.
Proof.
  induction R as [|rr R IH].
  - rewrite fmap_nil, list_to_set_nil, size_empty. done.
  - rewrite fmap_cons, list_to_set_cons, size_union_alt, size_singleton.
    pose proof (subseteq_size
      (list_to_set (rule_name <$> R) ∖ {[rule_name rr]})
      (list_to_set (rule_name <$> R) : gset string)) as Hle.
    simpl. etrans; [|apply le_n_S, IH]. apply le_n_S, Hle.
    by apply subseteq_difference_l.
Qed.

Lemma first_free_candidate (R : list ReplicationRule) bucket_name :
  ∃ k, k ≤ length R
     ∧ (candidate bucket_name k ∉ rule_name <$> R)
     ∧ ∀ j, j < k → candidate bucket_name j ∈ rule_name <$> R.
Proof.
  set (existing := list_to_set (rule_name <$> R) : gset string).
  destruct (first_free_or_all_taken existing bucket_name (S (length R)))
    as [(k & Hk & Hfree & Hfirst)|Hall].
  - exists k. split; [lia|]. split.
    + intros Hin. apply Hfree. by apply elem_of_list_to_set.
    + intros j Hj. by apply (elem_of_list_to_set (C:=gset string)), Hfirst.
  - destruct (candidates_not_all_taken existing bucket_name (S (length R))); [|done].
    pose proof (size_existing_names R). unfold existing. lia.
Qed.

Lemma get_new_rule_name_generated (R : list ReplicationRule) destination_bucket k fuel :
  candidate (name destination_bucket) k ∉ rule_name <$> R →
  (∀ j, j < k → candidate (name destination_bucket) j ∈ rule_name <$> R) →
  k < fuel →
  _get_new_rule_name fuel R destination_bucket None
  = Some (candidate (name destination_bucket) k).
Proof.
  intros Hfree Hfirst Hfuel. unfold _get_new_rule_name.
  apply (loop_returns_first_free _ _ k 0 fuel); [| |done].
  - intros j Hj. apply elem_of_list_to_set, Hfirst. lia.
  - intros Hin. apply Hfree. by apply elem_of_list_to_set in Hin.
Qed.

(** C3: an explicit name is returned verbatim; otherwise the candidates
    [name ++ ""], [name ++ "2"], [name ++ "3"], ... are tried in this order
    and the first one that is not the name of a current rule is returned. *)
Theorem get_new_rule_name_spec (R : list ReplicationRule) (destination_bucket : Bucket) :
  (∀ fuel n, _get_new_rule_name fuel R destination_bucket (Some n) = Some n)
  ∧ ∃ k, k ≤ length R
       ∧ (candidate (name destination_bucket) k ∉ rule_name <$> R)
       ∧ (∀ j, j < k → candidate (name destination_bucket) j ∈ rule_name <$> R)
       ∧ (∀ fuel, k < fuel →
            _get_new_rule_name fuel R destination_bucket None
            = Some (candidate (name destination_bucket) k))
       ∧ (∀ fuel, fuel ≤ k →
            _get_new_rule_name fuel R destination_bucket None = None).
Proof.
  split; [done|].
  destruct (first_free_candidate R (name destination_bucket)) as (k & Hk & Hfree & Hfirst).
  exists k. repeat split; try done.
  - intros fuel Hfuel. by apply get_new_rule_name_generated.
  - intros fuel Hfuel. unfold _get_new_rule_name.
    apply (loop_exhausted _ _ fuel 0). intros j Hj.
    apply elem_of_list_to_set, Hfirst. lia.
Qed.

(** The first ten suffixes, as in the doctest of
    [_get_rule_name_candidate_suffixes]. *)
Example first_ten_suffixes :
  suffix <$> seq 0 10 = [""; "2"; "3"; "4"; "5"; "6"; "7"; "8"; "9"; "10"].
Proof. vm_compute. reflexivity. Qed.

(** With rules named "dest-1" and "dest-12" and the destination bucket
    "dest-1", the candidates "dest-1" and "dest-12" are taken and the
    generated name is "dest-13". *)
Example rule_name_after_dest_1_and_dest_12 :
  rule_name <$> Simulator.sample_rules = ["dest-1"; "dest-12"]
  ∧ name Simulator.destination_bucket = "dest-1"
  ∧ _get_new_rule_name 3 Simulator.sample_rules Simulator.destination_bucket None
    = Some "dest-13".
Proof. split; [|split]; vm_compute; reflexivity. Qed.

(** C10: with no explicit name the loop of [_get_new_rule_name] ends within
    (number of current rules) + 1 iterations, on a candidate that is not the
    name of a current rule; the candidates are pairwise distinct. *)
Theorem get_new_rule_name_terminates (R : list ReplicationRule) (destination_bucket : Bucket) :
  (∀ i j, candidate (name destination_bucket) i = candidate (name destination_bucket) j → i = j)
  ∧ ∃ c, (c ∉ rule_name <$> R)
       ∧ ∀ extra, _get_new_rule_name (length R + 1 + extra) R destination_bucket None = Some c.
Proof.
  split; [apply candidate_inj|].
  destruct (first_free_candidate R (name destination_bucket)) as (k & Hk & Hfree & Hfirst).
  exists (candidate (name destination_bucket) k). split; [done|].
  intros extra. apply get_new_rule_name_generated; [done..|lia].
Qed.

(** *** Source key *)

Lemma has_capabilities_true_iff key required :
  has_capabilities key required = true ↔ required ⊆ capabilities key.
Proof. unfold has_capabilities. apply bool_decide_eq_true. Qed.

Lemma has_capabilities_false_iff key required :
  has_capabilities key required = false
  ↔ ∃ c, c ∈ required ∧ c ∉ capabilities key.
Proof.
  unfold has_capabilities. rewrite bool_decide_eq_false. split.
  - intros Hnot.
    assert (HnF : ¬ Forall (λ c, c ∈ capabilities key) required).
    { rewrite Forall_forall. intros HF. apply Hnot. intros c. apply HF. }
    apply not_Forall_Exists in HnF; [|apply _].
    apply Exists_exists in HnF as (c & Hc & Hmiss). by exists c.
  - intros (c & Hc & Hmiss) Hsub. apply Hmiss, Hsub, Hc.
Qed.

Lemma should_make_new_source_key_unfold cfg src key :
  as_replication_source cfg = Some src →
  _should_make_new_source_key cfg key
  = Ok match source_application_key_id src, key with
       | None, _ => true
       | Some _, None => true
       | Some _, Some k =>
           if Py.truthy (name_prefix k) then true
           else negb (has_capabilities k DEFAULT_SOURCE_CAPABILITIES)
       end.
Proof.
  intros Hsrc. unfold _should_make_new_source_key, source_application_key_id_of.
  rewrite Hsrc. simpl.
  destruct (source_application_key_id src); [|done].
  destruct key as [k|]; [|done].
  destruct (Py.truthy (name_prefix k)); [done|].
  by destruct (has_capabilities k DEFAULT_SOURCE_CAPABILITIES).
Qed.

Section SourceKey.
Context {St : Type} `{!B2Api St}.

Lemma get_source_key_unfold (b : Bucket) prefix cfg src R (s : St) :
  as_replication_source cfg = Some src →
  _get_source_key b prefix (Some cfg) R s
  = match _should_make_new_source_key cfg (get_key (source_application_key_id src) s) with
    | Ok true =>
        let '(key, s') :=
          create_key DEFAULT_SOURCE_CAPABILITIES
            (Py.slice_to 91 (name b) +:+ "-replisrc") (id_ b) None s in
        Ok (Some key, s')
    | Ok false => Ok (get_key (source_application_key_id src) s, s)
    | Raise e => Raise e
    | OutOfFuel => OutOfFuel
    end.
Proof.
  intros Hsrc. unfold _get_source_key, source_application_key_id_of.
  rewrite Hsrc. unfold mbind, M_bind, lift, gets. simpl.
  by destruct (_should_make_new_source_key cfg _) as [[|]| |].
Qed.

(** For a configuration that has a source side, the decision is [true]
    exactly when no source key id is set, or the looked-up key is
    [None], or the key has a non-empty name prefix, or the key lacks one of
    [DEFAULT_SOURCE_CAPABILITIES]; a resolvable key with no name prefix and
    all of these capabilities is returned as it is, and the backend is left
    unchanged. *)
Theorem should_make_new_source_key_iff cfg src key :
  as_replication_source cfg = Some src →
  (∃ decision, _should_make_new_source_key cfg key = Ok decision
     ∧ (decision = true ↔
          source_application_key_id src = None
          ∨ key = None
          ∨ (∃ k p, key = Some k ∧ name_prefix k = Some p ∧ p ≠ "")
          ∨ (∃ k c, key = Some k ∧ c ∈ DEFAULT_SOURCE_CAPABILITIES
                    ∧ c ∉ capabilities k)))
  ∧ ∀ (b : Bucket) prefix R (s : St) id k,
      source_application_key_id src = Some id →
      get_key (Some id) s = Some k →
      name_prefix k = None ∨ name_prefix k = Some "" →
      DEFAULT_SOURCE_CAPABILITIES ⊆ capabilities k →
      _should_make_new_source_key cfg (Some k) = Ok false
      ∧ _get_source_key b prefix (Some cfg) R s = Ok (Some k, s).
Proof.
  intros Hsrc. split.
  - rewrite (should_make_new_source_key_unfold cfg src key Hsrc).
    eexists. split; [done|].
    destruct (source_application_key_id src) as [id|]; [|by split; [left|]].
    destruct key as [k|]; [|by split; [right; left|]].
    destruct (Py.truthy (name_prefix k)) eqn:Hprefix.
    + split; [|done]. intros _. do 2 right. left.
      apply truthy_true_iff in Hprefix as (p & Hp & Hne). by exists k, p.
    + apply truthy_false_iff in Hprefix. rewrite negb_true_iff, has_capabilities_false_iff.
      split.
      * intros (c & Hc & Hmiss). do 3 right. by exists k, c.
      * intros [?|[?|[(k' & p & [= <-] & Hp & Hne)|(k' & c & [= <-] & Hc & Hmiss)]]];
          try done.
        -- destruct Hprefix as [Hnone|Hempty]; congruence.
        -- by exists c.
  - intros b prefix R s id k Hid Hkey Hprefix Hcaps.
    assert (Hdecision : _should_make_new_source_key cfg (Some k) = Ok false).
    { rewrite (should_make_new_source_key_unfold cfg src _ Hsrc), Hid.
      apply truthy_false_iff in Hprefix as ->.
      apply has_capabilities_true_iff in Hcaps as ->. done. }
    split; [done|].
    rewrite (get_source_key_unfold b prefix cfg src R s Hsrc), Hid, Hkey.
    by rewrite Hdecision.
Qed.

(** C5: whatever prefix the caller supplies, a source key that
    [_get_source_key] creates is named [bucket_name[:91] ++ "-replisrc"],
    carries exactly [DEFAULT_SOURCE_CAPABILITIES] and has no name prefix; a
    current key with a non-empty name prefix leads to such a creation even
    when its capabilities suffice. *)
Theorem get_source_key_creates_unrestricted_key
    (b : Bucket) prefix cfg src R (s : St) :
  as_replication_source cfg = Some src →
  (_should_make_new_source_key cfg (get_key (source_application_key_id src) s) = Ok true →
   ∃ key s',
     _get_source_key b prefix (Some cfg) R s = Ok (Some key, s')
     ∧ (key, s') = create_key DEFAULT_SOURCE_CAPABILITIES
                     (Py.slice_to 91 (name b) +:+ "-replisrc") (id_ b) None s
     ∧ key_name key = Py.slice_to 91 (name b) +:+ "-replisrc"
     ∧ capabilities key = DEFAULT_SOURCE_CAPABILITIES
     ∧ name_prefix key = None)
  ∧ ∀ k p,
      get_key (source_application_key_id src) s = Some k →
      name_prefix k = Some p → p ≠ "" →
      _should_make_new_source_key cfg (get_key (source_application_key_id src) s) = Ok true.
Proof.
  intros Hsrc. split.
  - intros Hdecision.
    rewrite (get_source_key_unfold b prefix cfg src R s Hsrc), Hdecision.
    pose proof (create_key_attributes DEFAULT_SOURCE_CAPABILITIES
      (Py.slice_to 91 (name b) +:+ "-replisrc") (id_ b) None s) as Hattrs.
    destruct (create_key _ _ _ _ s) as [key s'] eqn:Hcreate. simpl in Hattrs.
    destruct Hattrs as (Hcaps & Hname & Hprefix).
    by exists key, s'.
  - intros k p Hkey Hprefix Hne.
    rewrite (should_make_new_source_key_unfold cfg src _ Hsrc), Hkey.
    destruct (source_application_key_id src); [|done].
    assert (Py.truthy (name_prefix k) = true) as ->; [|done].
    apply truthy_true_iff. by exists p.
Qed.

(** With a source side, [_get_source_key] returns a key and raises nothing. *)
Lemma get_source_key_returns (b : Bucket) prefix cfg src R (s : St) :
  as_replication_source cfg = Some src →
  ∃ key s', _get_source_key b prefix (Some cfg) R s = Ok (Some key, s').
Proof.
  intros Hsrc. rewrite (get_source_key_unfold b prefix cfg src R s Hsrc).
  rewrite (should_make_new_source_key_unfold cfg src _ Hsrc).
  destruct (source_application_key_id src) as [id|].
  - destruct (get_key (Some id) s) as [k|].
    + destruct (if Py.truthy (name_prefix k) then true else _).
      * destruct (create_key _ _ _ _ s) as [key s']. by exists key, s'.
      * by exists k, s.
    + destruct (create_key _ _ _ _ s) as [key s']. by exists key, s'.
  - destruct (create_key _ _ _ _ s) as [key s']. by exists key, s'.
Qed.

End SourceKey.

(** *** Dictionaries *)

Section DictFacts.
Context {K V : Type} `{EqDecision K}.
Implicit Types (d : Py.dict K V) (k : K) (v : V).

Lemma get_setitem k v d k' :
  Py.get k' (Py.setitem k v d) = if decide (k' = k) then Some v else Py.get k' d.
Proof.
  induction d as [|[k0 v0] d IH]; simpl.
  - destruct (decide (k' = k)) as [->|Hne].
    + by rewrite decide_True.
    + by rewrite decide_False by congruence.
  - destruct (decide (k0 = k)) as [->|Hk0]; simpl.
    + destruct (decide (k = k')) as [->|Hne].
      * by rewrite decide_True.
      * by rewrite decide_False by congruence.
    + destruct (decide (k0 = k')) as [->|Hne].
      * by rewrite decide_False.
      * apply IH.
Qed.

Lemma setitem_keeps_other_entries k v d k' v' :
  (k', v') ∈ d → k' ≠ k → (k', v') ∈ Py.setitem k v d.
Proof.
  intros Hin Hne. induction d as [|[k0 v0] d IH]; simpl.
  - by apply not_elem_of_nil in Hin.
  - apply elem_of_cons in Hin as [[= <- <-]|Hin].
    + rewrite decide_False by done. left.
    + destruct (decide (k0 = k)); right; [done|by apply IH].
Qed.

Lemma setitem_adds_no_other_entry k v d k' v' :
  (k', v') ∈ Py.setitem k v d → k' ≠ k → (k', v') ∈ d.
Proof.
  intros Hin Hne. induction d as [|[k0 v0] d IH]; simpl in Hin.
  - apply list_elem_of_singleton in Hin as [= -> ->]. done.
  - destruct (decide (k0 = k)) as [->|Hk0].
    + apply elem_of_cons in Hin as [[= -> ->]|Hin]; [done|by right].
    + apply elem_of_cons in Hin as [->|Hin]; [left|right; by apply IH].
Qed.

Lemma setitem_keys k v d :
  Py.keys (Py.setitem k v d)
  = if decide (k ∈ Py.keys d) then Py.keys d else Py.keys d ++ [k].
Proof.
  unfold Py.keys. induction d as [|[k0 v0] d IH].
  - done.
  - change (((k0, v0) :: d).*1) with (k0 :: d.*1).
    change (Py.setitem k v ((k0, v0) :: d))
      with (if decide (k0 = k) then (k0, v) :: d else (k0, v0) :: Py.setitem k v d).
    destruct (decide (k0 = k)) as [->|Hk0].
    + rewrite decide_True; [done|left].
    + rewrite fmap_cons, IH. simpl fst.
      destruct (decide (k ∈ d.*1)) as [Hin|Hnin].
      * rewrite decide_True; [done|by right].
      * rewrite decide_False; [done|].
        intros [?|?]%elem_of_cons; done.
Qed.

End DictFacts.

(** *** Destination key *)

Section DestinationKey.
Context {St : Type} `{!B2Api St}.

Lemma fit_for_destination_test (key : ApplicationKey) :
  has_capabilities key DEFAULT_DESTINATION_CAPABILITIES
  && negb (Py.truthy (name_prefix key)) = bool_decide (fit_for_destination key).
Proof.
  unfold fit_for_destination. apply eq_true_iff_eq.
  rewrite andb_true_iff, negb_true_iff, has_capabilities_true_iff,
    truthy_false_iff, bool_decide_eq_true. done.
Qed.

(** What the scan has collected after the ids [ids]: the ids that do not
    resolve, and the last resolved key that is fit. *)
Lemma get_destination_key_scan (s : St) (ids : list string) :
  foldl (_get_destination_key_step s) ([], None) ids
  = (filter (λ id, get_key (Some id) s = None) ids,
     last (filter fit_for_destination (omap (λ id, get_key (Some id) s) ids))).
Proof.
  induction ids as [|id ids IH] using rev_ind; [done|].
  rewrite foldl_snoc, IH, filter_app, omap_app, filter_app, last_app.
  unfold _get_destination_key_step. simpl omap.
  destruct (get_key (Some id) s) as [key|] eqn:Hkey.
  - rewrite fit_for_destination_test.
    rewrite (filter_cons_False _ id) by (rewrite Hkey; done).
    rewrite filter_nil, app_nil_r, filter_cons, filter_nil.
    unfold bool_decide.
    change (decide (fit_for_destination key)) with (fit_for_destination_dec key).
    by destruct (fit_for_destination_dec key).
  - rewrite (filter_cons_True _ id) by done. by rewrite filter_nil.
Qed.

Lemma get_destination_key_unfold (destination_bucket : Bucket)
    (destination_configuration : ReplicationDestinationConfiguration) (s : St) :
  let ids := Py.values (source_to_destination_key_mapping destination_configuration) in
  _get_destination_key destination_bucket destination_configuration s
  = match last (filter fit_for_destination (omap (λ id, get_key (Some id) s) ids)) with
    | Some fit => Ok ((filter (λ id, get_key (Some id) s = None) ids, fit), s)
    | None =>
        let '(key, s') :=
          create_key DEFAULT_DESTINATION_CAPABILITIES
            (Py.slice_to 91 (name destination_bucket) +:+ "-replidst")
            (id_ destination_bucket) None s in
        Ok ((filter (λ id, get_key (Some id) s = None) ids, key), s')
    end.
Proof.
  intros ids. unfold _get_destination_key. fold ids.
  rewrite get_destination_key_scan.
  by destruct (last (filter fit_for_destination _)).
Qed.

Lemma get_destination_key_returns (destination_bucket : Bucket)
    (destination_configuration : ReplicationDestinationConfiguration) (s : St) :
  ∃ keys_to_purge key s',
    _get_destination_key destination_bucket destination_configuration s
    = Ok ((keys_to_purge, key), s').
Proof.
  rewrite get_destination_key_unfold.
  destruct (last (filter fit_for_destination _)) as [fit|].
  - by eexists _, fit, s.
  - destruct (create_key _ _ _ _ s) as [key s']. by eexists _, key, s'.
Qed.

(** A key that the scan selects is the key of a mapped id, so a stale id is
    never selected. *)
Lemma selected_key_is_mapped (s : St) (ids : list string) fit :
  last (filter fit_for_destination (omap (λ id, get_key (Some id) s) ids)) = Some fit →
  ∃ id, id ∈ ids ∧ get_key (Some id) s = Some fit ∧ fit_for_destination fit.
Proof.
  intros Hlast. apply last_Some_elem_of, list_elem_of_filter in Hlast as [Hfit Hin].
  apply list_elem_of_omap in Hin as (id & Hid & Hkey). by exists id.
Qed.

(** C6: the stale ids are exactly the mapped ids that do not resolve, in
    iteration order; the key is the last mapped key that resolves and is
    fit (all of [DEFAULT_DESTINATION_CAPABILITIES], no name prefix), so it
    is the key of a mapped id and never a stale one, and then nothing is
    created; when no mapped key is fit, a key named
    [bucket_name[:91] ++ "-replidst"] with [DEFAULT_DESTINATION_CAPABILITIES]
    and no name prefix is created and returned. *)
Theorem get_destination_key_spec (destination_bucket : Bucket)
    (destination_configuration : ReplicationDestinationConfiguration) (s : St) :
  let ids := Py.values (source_to_destination_key_mapping destination_configuration) in
  let stale := filter (λ id, get_key (Some id) s = None) ids in
  let resolved := omap (λ id, get_key (Some id) s) ids in
  ∃ key s',
    _get_destination_key destination_bucket destination_configuration s
    = Ok ((stale, key), s')
    ∧ match last (filter fit_for_destination resolved) with
      | Some fit =>
          key = fit ∧ s' = s ∧ fit_for_destination fit
          ∧ ∃ id, id ∈ ids ∧ get_key (Some id) s = Some fit
      | None =>
          (key, s') = create_key DEFAULT_DESTINATION_CAPABILITIES
                        (Py.slice_to 91 (name destination_bucket) +:+ "-replidst")
                        (id_ destination_bucket) None s
          ∧ key_name key = Py.slice_to 91 (name destination_bucket) +:+ "-replidst"
          ∧ capabilities key = DEFAULT_DESTINATION_CAPABILITIES
          ∧ name_prefix key = None
      end.
Proof.
  intros ids stale resolved. rewrite get_destination_key_unfold.
  fold ids stale resolved.
  destruct (last (filter fit_for_destination resolved)) as [fit|] eqn:Hlast.
  - exists fit, s. do 3 (split; [done|]).
    apply selected_key_is_mapped in Hlast as (id & Hid & Hkey & Hfit).
    split; [done|]. by exists id.
  - pose proof (create_key_attributes DEFAULT_DESTINATION_CAPABILITIES
      (Py.slice_to 91 (name destination_bucket) +:+ "-replidst")
      (id_ destination_bucket) None s) as Hattrs.
    destruct (create_key _ _ _ _ s) as [key s'] eqn:Hcreate. simpl in Hattrs.
    destruct Hattrs as (Hcaps & Hname & Hprefix).
    by exists key, s'.
Qed.

(** C9: [setup_destination] submits the bucket's source side as it was, and
    the old mapping with the entry of [source_key_id] set to the id of the
    resolved destination key; every other entry stays, whether its
    destination key id is stale or not, and no other entry appears. *)
Theorem setup_destination_submits (source_key_id : string)
    (destination_bucket : Bucket) (s : St) :
  let old_source := replication destination_bucket ≫= as_replication_source in
  let old_mapping :=
    from_option source_to_destination_key_mapping []
      (replication destination_bucket ≫= as_replication_destination) in
  ∃ keys_to_purge destination_key s' new_mapping,
    _get_destination_key destination_bucket
      {| source_to_destination_key_mapping := old_mapping |} s
    = Ok ((keys_to_purge, destination_key), s')
    ∧ setup_destination source_key_id destination_bucket s
      = update destination_bucket (revision destination_bucket)
          {| as_replication_source := old_source;
             as_replication_destination :=
               Some {| source_to_destination_key_mapping := new_mapping |} |} s'
    ∧ new_mapping = Py.setitem source_key_id (key_id_ destination_key) old_mapping
    ∧ Py.get source_key_id new_mapping = Some (key_id_ destination_key)
    ∧ (∀ k, k ≠ source_key_id → Py.get k new_mapping = Py.get k old_mapping)
    ∧ (∀ k v, k ≠ source_key_id → (k, v) ∈ new_mapping ↔ (k, v) ∈ old_mapping)
    ∧ Py.keys new_mapping
      = (if decide (source_key_id ∈ Py.keys old_mapping) then Py.keys old_mapping
         else Py.keys old_mapping ++ [source_key_id]).
Proof.
  intros old_source old_mapping.
  destruct (get_destination_key_returns destination_bucket
    {| source_to_destination_key_mapping := old_mapping |} s)
    as (keys_to_purge & key & s' & Hget).
  exists keys_to_purge, key, s'. eexists. split; [exact Hget|]. split; [|split; [reflexivity|]].
  - unfold setup_destination.
    assert (Hcfg :
      match replication destination_bucket ≫= as_replication_destination with
      | Some dst => dst
      | None => {| source_to_destination_key_mapping := [] |}
      end = {| source_to_destination_key_mapping := old_mapping |}).
    { unfold old_mapping.
      by destruct (replication destination_bucket ≫= as_replication_destination)
        as [[m]|]. }
    rewrite Hcfg. unfold mbind at 1, M_bind at 1. rewrite Hget. simpl.
    unfold old_source. by destruct (replication destination_bucket).
  - split; [|split; [|split]].
    + by rewrite get_setitem, decide_True.
    + intros k Hk. by rewrite get_setitem, decide_False.
    + intros k v Hk. split.
      * intros Hin. by eapply setitem_adds_no_other_entry.
      * intros Hin. by apply setitem_keeps_other_entries.
    + apply setitem_keys.
Qed.

End DestinationKey.

(** *** Source side *)

Lemma get_new_rule_name_returns fuel (R : list ReplicationRule)
    (destination_bucket : Bucket) name' :
  length R < fuel →
  ∃ n, _get_new_rule_name fuel R destination_bucket name' = Some n
     ∧ (name' = None → n ∉ rule_name <$> R).
Proof.
  intros Hfuel. destruct name' as [n|].
  - by exists n.
  - destruct (first_free_candidate R (name destination_bucket))
      as (k & Hk & Hfree & Hfirst).
    exists (candidate (name destination_bucket) k). split; [|done].
    apply get_new_rule_name_generated; [done..|lia].
Qed.

Section SetupSource.
Variables DEFAULT_PRIORITY MAX_PRIORITY : Z.
Variable checks : ReplicationRule → bool.
Context {St : Type} `{!B2Api St}.

(** A bucket with no replication configuration, or with a configuration
    that has no source side, makes [setup_source] raise [AttributeError]:
    the rule list and the destination side default to empty, and then
    [_get_source_key] reads the source key id of the missing source side. *)
Lemma setup_source_raises_without_source_side fuel (b d : Bucket)
    prefix name' priority ief (s : St) :
  replication b ≫= as_replication_source = None →
  setup_source DEFAULT_PRIORITY MAX_PRIORITY checks fuel b d prefix name' priority ief s
  = Raise AttributeError.
Proof.
  intros Hnone. unfold setup_source.
  destruct (replication b) as [cfg|]; [|done].
  simpl in Hnone.
  unfold _get_source_key, source_application_key_id_of, attr.
  rewrite Hnone. done.
Qed.

(** A rule that the constructor accepts has its priority within
    [1, MAX_PRIORITY]; any other priority is refused. *)
Lemma rule_accepted_priority (rr : ReplicationRule) :
  (rule_accepted MAX_PRIORITY checks rr = true →
   priority_in_range MAX_PRIORITY (rule_priority rr))
  ∧ (¬ priority_in_range MAX_PRIORITY (rule_priority rr) →
     rule_accepted MAX_PRIORITY checks rr = false).
Proof.
  unfold rule_accepted, priority_in_range. split.
  - intros [_ Hrange]%andb_true_iff. by apply bool_decide_eq_true in Hrange.
  - intros Hnot. apply andb_false_iff. right. by apply bool_decide_eq_false.
Qed.

(** [setup_source] once the source key and the rule name are known: the
    rule is built, and submitted if the constructor accepts it. *)
Lemma setup_source_with_key_and_name fuel (b d : Bucket) prefix name' priority ief
    (s s' : St) cfg src source_key n :
  replication b = Some cfg →
  as_replication_source cfg = Some src →
  _get_source_key b (default "" prefix) (Some cfg) (rules src) s
  = Ok (Some source_key, s') →
  _get_new_rule_name fuel (rules src) d name' = Some n →
  let new_rr :=
    {| rule_name := n;
       rule_priority :=
         _get_priority_for_new_rule DEFAULT_PRIORITY MAX_PRIORITY (rules src) priority;
       destination_bucket_id := id_ d;
       file_name_prefix := default "" prefix;
       include_existing_files := ief |} in
  setup_source DEFAULT_PRIORITY MAX_PRIORITY checks fuel b d prefix name' priority ief s
  = if rule_accepted MAX_PRIORITY checks new_rr
    then update b (revision b)
           {| as_replication_source :=
                Some {| source_application_key_id := Some (key_id_ source_key);
                        rules := rules src ++ [new_rr] |};
              as_replication_destination := as_replication_destination cfg |} s'
    else Raise ValueError.
Proof.
  intros Hcfg Hsrc Hkey Hname new_rr.
  unfold setup_source. rewrite Hcfg. unfold attr. rewrite Hsrc.
  cbn [mbind outcome_bind except_AttributeError].
  rewrite !bind_lift_Ok, (bind_Ok _ _ _ _ _ Hkey), Hname.
  unfold ReplicationRule_post_init. cbn [from_option].
  unfold mbind at 1, M_bind at 1, mret, M_ret. cbv beta iota. fold new_rr.
  by destruct (rule_accepted MAX_PRIORITY checks new_rr).
Qed.

(** [setup_source] on a bucket with a source side, given the iterations
    the name loop needs. *)
Lemma setup_source_with_source_side fuel (b d : Bucket) prefix name' priority ief
    (s : St) cfg src :
  replication b = Some cfg →
  as_replication_source cfg = Some src →
  length (rules src) < fuel →
  ∃ source_key s' new_rr,
    _get_source_key b (default "" prefix) (Some cfg) (rules src) s
    = Ok (Some source_key, s')
    ∧ _get_new_rule_name fuel (rules src) d name' = Some (rule_name new_rr)
    ∧ (name' = None → rule_name new_rr ∉ rule_name <$> rules src)
    ∧ rule_priority new_rr
      = _get_priority_for_new_rule DEFAULT_PRIORITY MAX_PRIORITY (rules src) priority
    ∧ destination_bucket_id new_rr = id_ d
    ∧ file_name_prefix new_rr = default "" prefix
    ∧ include_existing_files new_rr = ief
    ∧ setup_source DEFAULT_PRIORITY MAX_PRIORITY checks fuel b d prefix name' priority ief s
      = if rule_accepted MAX_PRIORITY checks new_rr
        then update b (revision b)
               {| as_replication_source :=
                    Some {| source_application_key_id := Some (key_id_ source_key);
                            rules := rules src ++ [new_rr] |};
                  as_replication_destination := as_replication_destination cfg |} s'
        else Raise ValueError.
Proof.
  intros Hcfg Hsrc Hfuel.
  destruct (get_source_key_returns b (default "" prefix) cfg src (rules src) s Hsrc)
    as (source_key & s' & Hkey).
  destruct (get_new_rule_name_returns fuel (rules src) d name' Hfuel)
    as (n & Hname & Hfresh).
  exists source_key, s',
    {| rule_name := n;
       rule_priority :=
         _get_priority_for_new_rule DEFAULT_PRIORITY MAX_PRIORITY (rules src) priority;
       destination_bucket_id := id_ d;
       file_name_prefix := default "" prefix;
       include_existing_files := ief |}.
  split; [done|].
  split; [exact Hname|]. split; [exact Hfresh|]. do 4 (split; [reflexivity|]).
  apply (setup_source_with_key_and_name fuel b d prefix name' priority ief s s'
    cfg src source_key n Hcfg Hsrc Hkey Hname).
Qed.

(** C8: for every source bucket, given the iterations the name loop needs:
    when the bucket has a source side with the rules [R], [setup_source]
    builds one new rule, with the resolved name and priority, the
    destination bucket's id, the prefix and the flag, and, if the
    constructor accepts the rule, submits the rule list [R ++ [new_rr]],
    every old rule unchanged and in order, together with the destination
    side of the bucket as it was; if the constructor refuses the rule,
    [ValueError] is raised and nothing is submitted.  When the bucket has
    no source side, [setup_source] raises and submits nothing. *)
Theorem setup_source_submits fuel (b d : Bucket) prefix name' priority ief (s : St) :
  length (from_option rules [] (replication b ≫= as_replication_source)) < fuel →
  match replication b ≫= as_replication_source with
  | None =>
      setup_source DEFAULT_PRIORITY MAX_PRIORITY checks fuel b d prefix name' priority ief s
      = Raise AttributeError
  | Some src =>
      ∃ source_key s' new_rr,
        _get_source_key b (default "" prefix) (replication b) (rules src) s
        = Ok (Some source_key, s')
        ∧ _get_new_rule_name fuel (rules src) d name' = Some (rule_name new_rr)
        ∧ rule_priority new_rr
          = _get_priority_for_new_rule DEFAULT_PRIORITY MAX_PRIORITY (rules src) priority
        ∧ destination_bucket_id new_rr = id_ d
        ∧ file_name_prefix new_rr = default "" prefix
        ∧ include_existing_files new_rr = ief
        ∧ setup_source DEFAULT_PRIORITY MAX_PRIORITY checks fuel b d prefix name'
            priority ief s
          = if rule_accepted MAX_PRIORITY checks new_rr
            then update b (revision b)
                   {| as_replication_source :=
                        Some {| source_application_key_id := Some (key_id_ source_key);
                                rules := rules src ++ [new_rr] |};
                      as_replication_destination :=
                        replication b ≫= as_replication_destination |} s'
            else Raise ValueError
  end.
Proof.
  intros Hfuel.
  destruct (replication b ≫= as_replication_source) as [src|] eqn:Hside.
  - destruct (replication b) as [cfg|] eqn:Hcfg; [|done]. simpl in Hside.
    destruct (setup_source_with_source_side fuel b d prefix name' priority ief
      s cfg src Hcfg Hside Hfuel)
      as (source_key & s' & new_rr & Hkey & Hname & _ & Hrest).
    exists source_key, s', new_rr. done.
  - by apply setup_source_raises_without_source_side.
Qed.

(** C7 (amended): every rule that [setup_source] creates, with an explicit
    or a computed priority, has its priority within [1, MAX_PRIORITY]: the
    priority of the new rule is the one [_get_priority_for_new_rule]
    returns, the rule is submitted only when the constructor accepts it,
    and then the priority is within the range; for any other priority
    [ValueError] is raised and no rule is created.
    [_get_priority_for_new_rule] itself returns a value within the range
    when no explicit priority is given and every existing priority and
    [DEFAULT_PRIORITY] are within it, and returns an explicit priority as
    it is, so within the range exactly when the caller's value is. *)
Theorem created_rule_priority_in_range fuel (b d : Bucket) prefix name' priority ief
    (s : St) (R : list ReplicationRule) :
  (length (from_option rules [] (replication b ≫= as_replication_source)) < fuel →
   match replication b ≫= as_replication_source with
   | None =>
       setup_source DEFAULT_PRIORITY MAX_PRIORITY checks fuel b d prefix name'
         priority ief s
       = Raise AttributeError
   | Some src =>
       ∃ source_key s' new_rr,
         rule_priority new_rr
         = _get_priority_for_new_rule DEFAULT_PRIORITY MAX_PRIORITY (rules src) priority
         ∧ (if rule_accepted MAX_PRIORITY checks new_rr
            then priority_in_range MAX_PRIORITY (rule_priority new_rr)
                 ∧ setup_source DEFAULT_PRIORITY MAX_PRIORITY checks fuel b d prefix
                     name' priority ief s
                   = update b (revision b)
                       {| as_replication_source :=
                            Some {| source_application_key_id :=
                                      Some (key_id_ source_key);
                                    rules := rules src ++ [new_rr] |};
                          as_replication_destination :=
                            replication b ≫= as_replication_destination |} s'
            else setup_source DEFAULT_PRIORITY MAX_PRIORITY checks fuel b d prefix
                   name' priority ief s
                 = Raise ValueError)
         ∧ (¬ priority_in_range MAX_PRIORITY (rule_priority new_rr) →
            setup_source DEFAULT_PRIORITY MAX_PRIORITY checks fuel b d prefix
              name' priority ief s
            = Raise ValueError)
   end)
  ∧ (priority_in_range MAX_PRIORITY DEFAULT_PRIORITY →
     Forall (λ rr, priority_in_range MAX_PRIORITY (rule_priority rr)) R →
     priority_in_range MAX_PRIORITY
       (_get_priority_for_new_rule DEFAULT_PRIORITY MAX_PRIORITY R None))
  ∧ ∀ p, _get_priority_for_new_rule DEFAULT_PRIORITY MAX_PRIORITY R (Some p) = p
         ∧ (priority_in_range MAX_PRIORITY
              (_get_priority_for_new_rule DEFAULT_PRIORITY MAX_PRIORITY R (Some p))
            ↔ priority_in_range MAX_PRIORITY p).
Proof.
  split; [|split; [|done]].
  - intros Hfuel.
    destruct (replication b ≫= as_replication_source) as [src|] eqn:Hside;
      [|by apply setup_source_raises_without_source_side].
    destruct (replication b) as [cfg|] eqn:Hcfg; [|done]. simpl in Hside.
    destruct (setup_source_with_source_side fuel b d prefix name' priority ief
      s cfg src Hcfg Hside Hfuel)
      as (source_key & s' & new_rr & _ & _ & _ & Hpriority & _ & _ & _ & Hsubmit).
    exists source_key, s', new_rr. split; [done|].
    destruct (rule_accepted_priority new_rr) as [Haccepted Hrefused].
    destruct (rule_accepted MAX_PRIORITY checks new_rr) eqn:Hrr.
    + split; [by split; [apply Haccepted|]|].
      intros Hnot. by apply Hrefused in Hnot.
    + done.
  - intros Hdefault HR.
    by apply get_priority_for_new_rule_computed_in_range.
Qed.

End SetupSource.

(** ** The helper on concrete buckets *)

Section Concrete.
Import Simulator.

(** C1: on a source bucket with no replication configuration
    [setup_source] raises [AttributeError], out of [_get_source_key]; it
    returns no bucket, so no source key is created and no rule is
    submitted. *)
Theorem setup_source_unconfigured_bucket_raises :
  replication empty_source_bucket = None
  ∧ _get_source_key empty_source_bucket "" (replication empty_source_bucket) [] backend0
    = Raise AttributeError
  ∧ ∀ checks fuel,
      setup_source DEFAULT_PRIORITY MAX_PRIORITY checks fuel
        empty_source_bucket destination_bucket None None None false backend0
      = Raise AttributeError.
Proof.
  split; [done|]. split; [done|]. intros checks fuel.
  by apply setup_source_raises_without_source_side.
Qed.

(** C2, on the rules of priorities 128 and 133. *)
Lemma get_priority_for_new_rule_on_sample_rules :
  sample_rules ≠ []
  ∧ _get_priority_for_new_rule DEFAULT_PRIORITY MAX_PRIORITY sample_rules (Some 7%Z) = 7%Z
  ∧ ∃ m, m ∈ rule_priority <$> sample_rules
       ∧ _get_priority_for_new_rule DEFAULT_PRIORITY MAX_PRIORITY sample_rules None
         = Z.min (m + 5) MAX_PRIORITY.
Proof.
  destruct (get_priority_for_new_rule_spec DEFAULT_PRIORITY MAX_PRIORITY sample_rules)
    as (Hexplicit & Hcomputed & _).
  split; [discriminate|]. split; [apply Hexplicit|].
  destruct (Hcomputed ltac:(discriminate)) as (m & Hm & _ & Heq).
  exists m. split; [exact Hm|exact Heq].
Defined.

(** C3, on the rules named "dest-1" and "dest-12" and the bucket "dest-1". *)
Lemma get_new_rule_name_on_sample_rules :
  ∃ k, k < 3
     ∧ _get_new_rule_name 3 sample_rules destination_bucket None
       = Some (candidate "dest-1" k).
Proof.
  destruct (get_new_rule_name_spec sample_rules destination_bucket)
    as (_ & k & Hk & _ & _ & Hreturned & _).
  exists k. simpl in Hk. split; [lia|]. apply Hreturned. lia.
Defined.

(** C4: on a configuration with no source side and the looked-up key
    [None], the decision raises [AttributeError] where the claim has it
    return [true]: the function reads the source key id of the missing
    source side, as [_get_source_key] does before it. *)
Lemma should_make_new_source_key_without_source_side :
  as_replication_source sourceless_configuration = None
  ∧ _should_make_new_source_key sourceless_configuration None = Raise AttributeError
  ∧ _should_make_new_source_key sourceless_configuration None ≠ Ok true.
Proof. split; [done|]. split; [done|]. discriminate. Qed.

(** The decision on the configured source bucket and its key. *)
Lemma should_make_new_source_key_on_full_key :
  as_replication_source configured_source_configuration = Some configured_source_side
  ∧ _should_make_new_source_key configured_source_configuration
      (get_key (source_application_key_id configured_source_side) backend0)
    = Ok false
  ∧ _get_source_key configured_source_bucket "x/"
      (Some configured_source_configuration) sample_rules backend0
    = Ok (Some full_source_key, backend0).
Proof.
  split; [reflexivity|].
  destruct (should_make_new_source_key_iff (St:=backend)
    configured_source_configuration configured_source_side None eq_refl)
    as [_ Hreuse].
  apply (Hreuse configured_source_bucket "x/" sample_rules backend0 "K1" full_source_key).
  - reflexivity.
  - reflexivity.
  - left. reflexivity.
  - apply (proj1 (has_capabilities_true_iff full_source_key DEFAULT_SOURCE_CAPABILITIES)).
    vm_compute. reflexivity.
Defined.

(** C5, on a source side whose key has the name prefix "photos/" and all
    of the source capabilities. *)
Lemma get_source_key_replaces_prefixed_key :
  as_replication_source prefixed_source_configuration = Some prefixed_source_side
  ∧ get_key (source_application_key_id prefixed_source_side) backend0
    = Some prefixed_source_key
  ∧ DEFAULT_SOURCE_CAPABILITIES ⊆ capabilities prefixed_source_key
  ∧ ∃ key s',
      _get_source_key configured_source_bucket "photos/"
        (Some prefixed_source_configuration) sample_rules backend0
      = Ok (Some key, s')
      ∧ key_name key = "src-1-replisrc"
      ∧ capabilities key = DEFAULT_SOURCE_CAPABILITIES
      ∧ name_prefix key = None.
Proof.
  split; [reflexivity|]. split; [reflexivity|]. split; [done|].
  destruct (get_source_key_creates_unrestricted_key configured_source_bucket
    "photos/" prefixed_source_configuration prefixed_source_side sample_rules
    backend0 eq_refl) as [Hcreated Hdecision].
  destruct (Hcreated (Hdecision prefixed_source_key "photos/" eq_refl eq_refl
    ltac:(discriminate))) as (key & s' & Hget & _ & Hname & Hcaps & Hprefix).
  exists key, s'. repeat split; assumption.
Defined.

(** C7: the explicit priority 0 is returned as it is, although every
    existing priority and [DEFAULT_PRIORITY] are within the range. *)
Lemma explicit_priority_out_of_range :
  priority_in_range MAX_PRIORITY DEFAULT_PRIORITY
  ∧ Forall (λ rr, priority_in_range MAX_PRIORITY (rule_priority rr)) sample_rules
  ∧ _get_priority_for_new_rule DEFAULT_PRIORITY MAX_PRIORITY sample_rules (Some 0%Z) = 0%Z
  ∧ ¬ priority_in_range MAX_PRIORITY
        (_get_priority_for_new_rule DEFAULT_PRIORITY MAX_PRIORITY sample_rules (Some 0%Z)).
Proof.
  split; [by vm_compute|]. split.
  - repeat constructor; by vm_compute.
  - split; [done|]. unfold priority_in_range. simpl. lia.
Qed.

(** C7 (amended), on the configured source bucket: the computed priority
    of a new rule is within the range, and the explicit priority 0 makes
    [setup_source] raise [ValueError]. *)
Lemma created_rule_priority_on_configured_bucket :
  length (rules configured_source_side) < 5
  ∧ priority_in_range MAX_PRIORITY DEFAULT_PRIORITY
  ∧ Forall (λ rr, priority_in_range MAX_PRIORITY (rule_priority rr)) sample_rules
  ∧ priority_in_range MAX_PRIORITY
      (_get_priority_for_new_rule DEFAULT_PRIORITY MAX_PRIORITY sample_rules None)
  ∧ setup_source DEFAULT_PRIORITY MAX_PRIORITY sample_checks 5
      configured_source_bucket destination_bucket None None (Some 0%Z) false backend0
    = Raise ValueError.
Proof.
  assert (Hfuel : length (rules configured_source_side) < 5) by (simpl; lia).
  assert (Hdefault : priority_in_range MAX_PRIORITY DEFAULT_PRIORITY).
  { unfold priority_in_range, MAX_PRIORITY, DEFAULT_PRIORITY. lia. }
  assert (Hrules : Forall (λ rr, priority_in_range MAX_PRIORITY (rule_priority rr))
                     sample_rules).
  { repeat constructor; unfold priority_in_range, MAX_PRIORITY; simpl; lia. }
  destruct (created_rule_priority_in_range DEFAULT_PRIORITY MAX_PRIORITY
    sample_checks 5 configured_source_bucket destination_bucket None None
    (Some 0%Z) false backend0 sample_rules) as (Hcreated & Hcomputed & _).
  split; [exact Hfuel|]. split; [exact Hdefault|]. split; [exact Hrules|].
  split; [exact (Hcomputed Hdefault Hrules)|].
  destruct (Hcreated Hfuel) as (source_key & s' & new_rr & Hpriority & _ & Hraise).
  apply Hraise. rewrite Hpriority. unfold priority_in_range. simpl. lia.
Defined.

(** C8, on the configured source bucket, whose new rule "dest-13" of
    priority 138 the sample checks accept. *)
Lemma setup_source_on_configured_bucket :
  length (rules configured_source_side) < 5
  ∧ ∃ source_key s' new_rr,
      rule_name new_rr = "dest-13"
      ∧ setup_source DEFAULT_PRIORITY MAX_PRIORITY sample_checks 5
          configured_source_bucket destination_bucket (Some "x/") None None false
          backend0
        = update configured_source_bucket (revision configured_source_bucket)
            {| as_replication_source :=
                 Some {| source_application_key_id := Some (key_id_ source_key);
                         rules := sample_rules ++ [new_rr] |};
               as_replication_destination :=
                 as_replication_destination configured_source_configuration |} s'.
Proof.
  assert (Hfuel : length (rules configured_source_side) < 5) by (simpl; lia).
  split; [exact Hfuel|].
  destruct (setup_source_submits DEFAULT_PRIORITY MAX_PRIORITY sample_checks 5
    configured_source_bucket destination_bucket (Some "x/") None None false
    backend0 Hfuel)
    as (source_key & s' & new_rr & _ & Hname & Hpriority & Hid & _ & _ & Hsubmit).
  exists source_key, s', new_rr.
  destruct new_rr as [n p bucket_id file_prefix flag]. simpl in Hname, Hpriority, Hid.
  vm_compute in Hname. injection Hname as <-. subst p bucket_id.
  split; [reflexivity|].
  match type of Hsubmit with
  | _ = (if ?accepted then _ else _) =>
      assert (Haccepted : accepted = true) by (vm_compute; reflexivity);
      rewrite Haccepted in Hsubmit
  end.
  exact Hsubmit.
Defined.

(** C6 and C9, on the destination bucket: the ids "gone" and "lost" are
    stale, the last fit key "K5" is selected and nothing is created, and
    the submitted mapping keeps every old entry. *)
Example setup_destination_on_sample_bucket :
  _get_destination_key destination_bucket
    {| source_to_destination_key_mapping :=
         [("S1", "K4"); ("S2", "gone"); ("S3", "K3"); ("S4", "K5"); ("S5", "lost")] |}
    backend0
  = Ok ((["gone"; "lost"], destination_key_b), backend0)
  ∧ (replication <$> (fst <$>
       match setup_destination "K1" destination_bucket backend0 with
       | Ok r => Some r
       | _ => None
       end))
    = Some (Some
        {| as_replication_source := None;
           as_replication_destination := Some
             {| source_to_destination_key_mapping :=
                  [("S1", "K4"); ("S2", "gone"); ("S3", "K3"); ("S4", "K5");
                   ("S5", "lost"); ("K1", "K5")] |} |}).
Proof. split; vm_compute; reflexivity. Qed.

End Concrete.

(** ** Further properties *)

(** *** Bucket paths *)

Lemma str_partition_no_sep sep s :
  sep ∉ list_ascii_of_string s → str_partition sep s = (s, "", "").
Proof.
  induction s as [|c s IH]; [done|]. simpl. intros Hnot.
  destruct (Ascii.eqb_spec c sep) as [->|Hne].
  - destruct Hnot. left.
  - rewrite IH; [done|]. intros Hin. apply Hnot. by right.
Qed.

Lemma str_partition_before sep s :
  sep ∉ list_ascii_of_string (str_partition sep s).1.1.
Proof.
  induction s as [|c s IH]; simpl.
  - apply not_elem_of_nil.
  - destruct (Ascii.eqb_spec c sep) as [->|Hne]; simpl.
    + apply not_elem_of_nil.
    + destruct (str_partition sep s) as [[before found] after]. simpl in *.
      intros [?|?]%elem_of_cons; [congruence|done].
Qed.

Lemma str_partition_sep sep s :
  sep ∈ list_ascii_of_string s →
  (str_partition sep s).1.2 = String sep ""
  ∧ s = (str_partition sep s).1.1 +:+ String sep (str_partition sep s).2.
Proof.
  induction s as [|c s IH]; simpl.
  - by intros ?%not_elem_of_nil.
  - intros Hin. destruct (Ascii.eqb_spec c sep) as [->|Hne]; [done|].
    apply elem_of_cons in Hin as [?|Hin]; [congruence|].
    destruct (IH Hin) as [Hfound Hjoin].
    destruct (str_partition sep s) as [[before found] after]. simpl in *.
    split; [done|]. by rewrite Hjoin at 1.
Qed.

Lemma str_partition_join sep before after :
  sep ∉ list_ascii_of_string before →
  str_partition sep (before +:+ String sep after) = (before, String sep "", after).
Proof.
  induction before as [|c before IH]; simpl.
  - intros _. by rewrite Ascii.eqb_refl.
  - intros Hnot. destruct (Ascii.eqb_spec c sep) as [->|Hne].
    + destruct Hnot. left.
    + rewrite IH; [done|]. intros Hin. apply Hnot. by right.
Qed.

(** X1: the bucket name that [_partion_bucket_path] returns has no slash;
    a path with a slash is the bucket name, a slash and the returned path,
    split at its first slash; a path with no slash is returned whole as the
    bucket name, with the empty path. *)
Theorem partion_bucket_path_splits (bucket_path : string) :
  ¬ has_slash (_partion_bucket_path bucket_path).1
  ∧ (has_slash bucket_path →
     bucket_path = (_partion_bucket_path bucket_path).1 +:+ "/"
                   +:+ (_partion_bucket_path bucket_path).2)
  ∧ (¬ has_slash bucket_path → _partion_bucket_path bucket_path = (bucket_path, "")).
Proof.
  unfold _partion_bucket_path, has_slash. split; [|split].
  - pose proof (str_partition_before "/" bucket_path) as Hbefore.
    by destruct (str_partition "/" bucket_path) as [[bucket_name found] path].
  - intros Hin. destruct (str_partition_sep "/" bucket_path Hin) as [_ Hjoin].
    by destruct (str_partition "/" bucket_path) as [[bucket_name found] path].
  - intros Hnot. by rewrite str_partition_no_sep.
Qed.

(** X2: splitting undoes joining: for a bucket name with no slash and any
    path, also one with slashes, [_partion_bucket_path] of the name, a
    slash and the path gives back the name and the path. *)
Theorem partion_bucket_path_of_join (bucket_name path : string) :
  ¬ has_slash bucket_name →
  _partion_bucket_path (bucket_name +:+ "/" +:+ path) = (bucket_name, path).
Proof.
  intros Hnot. unfold _partion_bucket_path.
  change (bucket_name +:+ "/" +:+ path) with (bucket_name +:+ String "/" path).
  by rewrite str_partition_join.
Qed.

(** X3: a trailing slash is not told apart from no slash: a bucket name
    alone and the bucket name followed by a slash give the same result. *)
Theorem partion_bucket_path_trailing_slash (bucket_name : string) :
  ¬ has_slash bucket_name →
  _partion_bucket_path (bucket_name +:+ "/") = _partion_bucket_path bucket_name
  ∧ _partion_bucket_path bucket_name = (bucket_name, "").
Proof.
  intros Hnot. split.
  - unfold _partion_bucket_path.
    rewrite (str_partition_join "/" bucket_name "" Hnot).
    by rewrite str_partition_no_sep.
  - unfold _partion_bucket_path. by rewrite str_partition_no_sep.
Qed.

(** *** Candidate suffixes *)

Lemma first_suffixes_after (n k : nat) :
  first_suffixes n (suffixes_after k) = suffix <$> seq k n.
Proof.
  revert k. induction n as [|n IH]; intros k; [done|].
  simpl. rewrite next_suffixes_after, IH. done.
Qed.

(** X4: the first [n] values of the suffix iterator are the empty string
    and then the decimal numerals of 2, 3, ..., [n]; they are pairwise
    distinct, and neither "0" nor "1" is among them. *)
Theorem candidate_suffixes_closed_form (n : nat) :
  first_suffixes n _get_rule_name_candidate_suffixes = suffix <$> seq 0 n
  ∧ first_suffixes (S n) _get_rule_name_candidate_suffixes
    = "" :: ((λ i, Py.str (Z.of_nat i)) <$> seq 2 n)
  ∧ NoDup (first_suffixes n _get_rule_name_candidate_suffixes)
  ∧ ("0" ∉ first_suffixes n _get_rule_name_candidate_suffixes)
  ∧ ("1" ∉ first_suffixes n _get_rule_name_candidate_suffixes).
Proof.
  rewrite !(first_suffixes_after _ 0).
  split; [done|]. split; [|split; [|split]].
  - simpl. f_equal. rewrite <- (fmap_S_seq 1), <- (fmap_S_seq 0), <- !list_fmap_compose.
    apply list_fmap_ext. intros _ i _. simpl. done.
  - apply (@NoDup_fmap_2 _ _ _ suffix_inj), NoDup_seq.
  - intros (i & Hi & _)%list_elem_of_fmap. destruct i as [|i]; [done|].
    unfold suffix, Py.str in Hi. change "0" with (pretty 0%Z) in Hi.
    apply (inj pretty) in Hi. lia.
  - intros (i & Hi & _)%list_elem_of_fmap. destruct i as [|i]; [done|].
    unfold suffix, Py.str in Hi. change "1" with (pretty 1%Z) in Hi.
    apply (inj pretty) in Hi. lia.
Qed.

(** *** Priorities of new rules *)

Section MorePriority.
Variables DEFAULT_PRIORITY MAX_PRIORITY : Z.

(** X5: when every existing priority leaves room for the offset below
    [MAX_PRIORITY], the computed priority is the largest existing priority
    plus 5, so it is above every existing priority and collides with none. *)
Theorem get_priority_for_new_rule_above_existing (R : list ReplicationRule) :
  R ≠ [] →
  (∀ rr, rr ∈ R → (rule_priority rr + 5 ≤ MAX_PRIORITY)%Z) →
  (∃ rr, rr ∈ R
     ∧ _get_priority_for_new_rule DEFAULT_PRIORITY MAX_PRIORITY R None
       = (rule_priority rr + 5)%Z)
  ∧ ∀ rr, rr ∈ R →
      (rule_priority rr + 5
       ≤ _get_priority_for_new_rule DEFAULT_PRIORITY MAX_PRIORITY R None)%Z.
Proof.
  intros HR Hroom. destruct R as [|rr0 rest]; [done|].
  destruct (new_priority_computed DEFAULT_PRIORITY MAX_PRIORITY rr0 rest)
    as (m & Hm & Hupper & ->).
  apply list_elem_of_fmap in Hm as (rr & -> & Hrr).
  rewrite Z.min_l by (apply Hroom, Hrr). split.
  - by exists rr.
  - intros rr' Hrr'. apply Z.add_le_mono_r, Hupper, list_elem_of_fmap.
    by exists rr'.
Qed.

(** X6: a computed priority for a non-empty rule list never exceeds
    [MAX_PRIORITY], whatever the existing priorities are; as soon as one
    existing priority is within the offset of [MAX_PRIORITY], the result
    is [MAX_PRIORITY] itself, and no existing rule is renumbered to make
    room: a rule that already has priority [MAX_PRIORITY] then shares it
    with the new rule. *)
Theorem get_priority_for_new_rule_capped (R : list ReplicationRule) :
  R ≠ [] →
  (_get_priority_for_new_rule DEFAULT_PRIORITY MAX_PRIORITY R None ≤ MAX_PRIORITY)%Z
  ∧ ((∃ rr, rr ∈ R ∧ (MAX_PRIORITY - 5 ≤ rule_priority rr)%Z) →
     _get_priority_for_new_rule DEFAULT_PRIORITY MAX_PRIORITY R None = MAX_PRIORITY)
  ∧ ∀ rr, rr ∈ R → rule_priority rr = MAX_PRIORITY →
      _get_priority_for_new_rule DEFAULT_PRIORITY MAX_PRIORITY R None
      = rule_priority rr.
Proof.
  intros HR. destruct R as [|rr0 rest]; [done|].
  destruct (new_priority_computed DEFAULT_PRIORITY MAX_PRIORITY rr0 rest)
    as (m & Hm & Hupper & ->).
  assert (Hnear : ∀ rr, rr ∈ rr0 :: rest → (MAX_PRIORITY - 5 ≤ rule_priority rr)%Z →
                  Z.min (m + 5) MAX_PRIORITY = MAX_PRIORITY).
  { intros rr Hrr Hle. apply Z.min_r.
    assert (rule_priority rr ≤ m)%Z; [|lia].
    apply Hupper, list_elem_of_fmap. by exists rr. }
  split; [apply Z.le_min_r|]. split.
  - intros (rr & Hrr & Hle). by apply (Hnear rr).
  - intros rr Hrr Hmax. rewrite Hmax. apply (Hnear rr Hrr). lia.
Qed.

End MorePriority.

(** *** Names of new rules *)

Lemma string_app_empty_r (s : string) : s +:+ "" = s.
Proof.
  induction s as [|c s IH]; [done|].
  change (String c s +:+ "") with (String c (s +:+ "")). by rewrite IH.
Qed.

(** X7: with no explicit name and at least one iteration, the new rule is
    named exactly after the destination bucket if and only if no current
    rule has that name. *)
Theorem first_rule_for_a_bucket_takes_its_name (fuel : nat)
    (R : list ReplicationRule) (destination_bucket : Bucket) :
  0 < fuel →
  _get_new_rule_name fuel R destination_bucket None = Some (name destination_bucket)
  ↔ name destination_bucket ∉ rule_name <$> R.
Proof.
  intros Hfuel.
  assert (Hzero : candidate (name destination_bucket) 0 = name destination_bucket)
    by apply string_app_empty_r.
  split.
  - intros Hresult Htaken.
    destruct (first_free_candidate R (name destination_bucket))
      as (k & Hk & Hfree & Hfirst).
    destruct k as [|k]; [by rewrite Hzero in Hfree|].
    destruct (decide (S k < fuel)) as [Hlt|Hge].
    + rewrite (get_new_rule_name_generated R destination_bucket (S k) fuel)
        in Hresult by done.
      assert (Heq : candidate (name destination_bucket) (S k)
                    = candidate (name destination_bucket) 0)
        by (rewrite Hzero; congruence).
      by apply candidate_inj in Heq.
    + unfold _get_new_rule_name in Hresult.
      rewrite (loop_exhausted _ _ fuel 0) in Hresult; [done|].
      intros j Hj. apply elem_of_list_to_set, Hfirst. lia.
  - intros Hfree.
    rewrite (get_new_rule_name_generated R destination_bucket 0 fuel).
    + by rewrite Hzero.
    + by rewrite Hzero.
    + intros j Hj. lia.
    + done.
Qed.

(** *** Names of created keys *)

Lemma string_length_app (s1 s2 : string) :
  String.length (s1 +:+ s2) = String.length s1 + String.length s2.
Proof.
  induction s1 as [|c s1 IH]; [done|].
  change (String c s1 +:+ s2) with (String c (s1 +:+ s2)). simpl. by rewrite IH.
Qed.

Lemma slice_to_length (n : nat) (s : string) :
  String.length (Py.slice_to n s) = n `min` String.length s.
Proof.
  revert s. induction n as [|n IH]; intros [|c s]; simpl; try done.
  by rewrite IH.
Qed.

Lemma slice_to_short (n : nat) (s : string) :
  String.length s ≤ n → Py.slice_to n s = s.
Proof.
  revert s. induction n as [|n IH]; intros [|c s]; simpl; try done; try lia.
  intros Hlen. rewrite IH; [done|lia].
Qed.

(** The name requested for a new key: at most 100 characters, the whole
    bucket name when it has at most 91, and 100 characters otherwise. *)
Lemma new_key_name_bounds (bucket_name tail : string) :
  String.length tail = 9 →
  String.length (Py.slice_to 91 bucket_name +:+ tail) ≤ 100
  ∧ (String.length bucket_name ≤ 91 →
     Py.slice_to 91 bucket_name +:+ tail = bucket_name +:+ tail)
  ∧ (91 ≤ String.length bucket_name →
     String.length (Py.slice_to 91 bucket_name +:+ tail) = 100).
Proof.
  intros Htail. rewrite string_length_app, slice_to_length, Htail.
  split; [lia|]. split; [|lia]. intros Hshort. by rewrite slice_to_short.
Qed.

Section MoreKeys.
Context {St : Type} `{!B2Api St}.

(** What [_get_source_key] does for a configuration with a source side:
    it returns the current key, which is then fit, and leaves the backend
    as it is, or it creates a key, which is fit as well. *)
Lemma get_source_key_cases (b : Bucket) prefix cfg src R (s : St) :
  as_replication_source cfg = Some src →
  (∃ id k, source_application_key_id src = Some id
           ∧ get_key (Some id) s = Some k ∧ fit_for_source k
           ∧ _get_source_key b prefix (Some cfg) R s = Ok (Some k, s))
  ∨ (∃ key s',
       _should_make_new_source_key cfg (get_key (source_application_key_id src) s)
       = Ok true
       ∧ (key, s') = create_key DEFAULT_SOURCE_CAPABILITIES
                       (Py.slice_to 91 (name b) +:+ "-replisrc") (id_ b) None s
       ∧ fit_for_source key
       ∧ key_name key = Py.slice_to 91 (name b) +:+ "-replisrc"
       ∧ _get_source_key b prefix (Some cfg) R s = Ok (Some key, s')).
Proof.
  intros Hsrc. rewrite (get_source_key_unfold b prefix cfg src R s Hsrc).
  rewrite (should_make_new_source_key_unfold cfg src _ Hsrc).
  pose proof (create_key_attributes DEFAULT_SOURCE_CAPABILITIES
    (Py.slice_to 91 (name b) +:+ "-replisrc") (id_ b) None s) as Hattrs.
  destruct (create_key _ _ _ _ s) as [key s'] eqn:Hcreate. simpl in Hattrs.
  destruct Hattrs as (Hcaps & Hname & Hprefix).
  assert (Hfit : fit_for_source key).
  { split; [by rewrite Hcaps|by left]. }
  destruct (source_application_key_id src) as [id|] eqn:Hid;
    [|right; by exists key, s'].
  destruct (get_key (Some id) s) as [k|] eqn:Hkey; [|right; by exists key, s'].
  destruct (Py.truthy (name_prefix k)) eqn:Htruthy; [right; by exists key, s'|].
  destruct (has_capabilities k DEFAULT_SOURCE_CAPABILITIES) eqn:Hhas;
    [|right; by exists key, s'].
  left. exists id, k. repeat split; try done.
  - by apply has_capabilities_true_iff.
  - by apply truthy_false_iff.
Qed.

(** X8: the key that [_get_source_key] returns for a configuration with a
    source side, reused or created, always has all of
    [DEFAULT_SOURCE_CAPABILITIES] and no name prefix restriction. *)
Theorem get_source_key_returns_fit_key (b : Bucket) prefix cfg src R (s : St) :
  as_replication_source cfg = Some src →
  ∃ key s',
    _get_source_key b prefix (Some cfg) R s = Ok (Some key, s')
    ∧ fit_for_source key.
Proof.
  intros Hsrc.
  destruct (get_source_key_cases b prefix cfg src R s Hsrc)
    as [(id & k & _ & _ & Hfit & Hget)|(key & s' & _ & _ & Hfit & _ & Hget)].
  - by exists k, s.
  - by exists key, s'.
Qed.

(** X9: the key that [_get_source_key] returned is reused by a later call:
    for any bucket, prefix and rules, a configuration that names the id of
    that key, and a backend that still resolves the id to it, the later
    call returns the same key and creates nothing. *)
Theorem get_source_key_reuses_returned_key
    (b : Bucket) prefix cfg src R (s s1 : St) key
    (b2 : Bucket) prefix2 cfg2 src2 R2 (s2 : St) :
  as_replication_source cfg = Some src →
  _get_source_key b prefix (Some cfg) R s = Ok (Some key, s1) →
  as_replication_source cfg2 = Some src2 →
  source_application_key_id src2 = Some (key_id_ key) →
  get_key (Some (key_id_ key)) s2 = Some key →
  _get_source_key b2 prefix2 (Some cfg2) R2 s2 = Ok (Some key, s2).
Proof.
  intros Hsrc Hfirst Hsrc2 Hid2 Hkey2.
  assert (Hfit : fit_for_source key).
  { destruct (get_source_key_cases b prefix cfg src R s Hsrc)
      as [(id & k & _ & _ & Hfit & Hget)|(k & s' & _ & _ & Hfit & _ & Hget)];
      rewrite Hget in Hfirst; by injection Hfirst as <- _. }
  destruct Hfit as [Hcaps Hprefix].
  rewrite (get_source_key_unfold b2 prefix2 cfg2 src2 R2 s2 Hsrc2).
  rewrite (should_make_new_source_key_unfold cfg2 src2 _ Hsrc2), Hid2, Hkey2.
  apply truthy_false_iff in Hprefix as ->.
  apply has_capabilities_true_iff in Hcaps as ->. done.
Qed.

(** X10: a source key that [_get_source_key] creates has a name of at most
    100 characters: the bucket name and "-replisrc" when the bucket name
    has at most 91 characters, and exactly 100 characters otherwise. *)
Theorem new_source_key_name_bounded (b : Bucket) prefix cfg src R (s : St) :
  as_replication_source cfg = Some src →
  _should_make_new_source_key cfg (get_key (source_application_key_id src) s) = Ok true →
  ∃ key s',
    _get_source_key b prefix (Some cfg) R s = Ok (Some key, s')
    ∧ String.length (key_name key) ≤ 100
    ∧ (String.length (name b) ≤ 91 → key_name key = name b +:+ "-replisrc")
    ∧ (91 ≤ String.length (name b) → String.length (key_name key) = 100).
Proof.
  intros Hsrc Hdecision.
  destruct (get_source_key_cases b prefix cfg src R s Hsrc)
    as [(id & k & Hid & Hkey & [Hcaps Hprefix] & Hget)
       |(key & s' & _ & _ & _ & Hname & Hget)].
  - rewrite (should_make_new_source_key_unfold cfg src _ Hsrc), Hid, Hkey
      in Hdecision.
    apply truthy_false_iff in Hprefix. rewrite Hprefix in Hdecision.
    apply has_capabilities_true_iff in Hcaps. by rewrite Hcaps in Hdecision.
  - exists key, s'. split; [done|]. rewrite Hname.
    by apply new_key_name_bounds.
Qed.

(** What [_get_destination_key] does: it returns the last mapped key that
    is fit and leaves the backend as it is, or, when no mapped key is fit,
    it creates a key, which is fit. *)
Lemma get_destination_key_cases (b : Bucket)
    (dst : ReplicationDestinationConfiguration) (s : St) :
  let ids := Py.values (source_to_destination_key_mapping dst) in
  let stale := filter (λ id, get_key (Some id) s = None) ids in
  (∃ fit id, id ∈ ids ∧ get_key (Some id) s = Some fit ∧ fit_for_destination fit
             ∧ _get_destination_key b dst s = Ok ((stale, fit), s))
  ∨ (∃ key s',
       (∀ id k, id ∈ ids → get_key (Some id) s = Some k → ¬ fit_for_destination k)
       ∧ (key, s') = create_key DEFAULT_DESTINATION_CAPABILITIES
                       (Py.slice_to 91 (name b) +:+ "-replidst") (id_ b) None s
       ∧ fit_for_destination key
       ∧ key_name key = Py.slice_to 91 (name b) +:+ "-replidst"
       ∧ _get_destination_key b dst s = Ok ((stale, key), s')).
Proof.
  intros ids stale. rewrite get_destination_key_unfold. fold ids stale.
  destruct (last (filter fit_for_destination _)) as [fit|] eqn:Hlast.
  - left. apply selected_key_is_mapped in Hlast as (id & Hid & Hkey & Hfit).
    by exists fit, id.
  - right.
    pose proof (create_key_attributes DEFAULT_DESTINATION_CAPABILITIES
      (Py.slice_to 91 (name b) +:+ "-replidst") (id_ b) None s) as Hattrs.
    destruct (create_key _ _ _ _ s) as [key s'] eqn:Hcreate. simpl in Hattrs.
    destruct Hattrs as (Hcaps & Hname & Hprefix).
    exists key, s'. split; [|split; [done|split; [|done]]].
    + intros id k Hid Hkey Hfit. apply last_None in Hlast.
      assert (Hin : k ∈ filter fit_for_destination
                          (omap (λ id, get_key (Some id) s) ids)).
      { apply list_elem_of_filter. split; [done|].
        apply list_elem_of_omap. by exists id. }
      rewrite Hlast in Hin. by apply not_elem_of_nil in Hin.
    + split; [by rewrite Hcaps|by left].
Qed.

(** X11: the key that [_get_destination_key] returns, selected or created,
    always has all of [DEFAULT_DESTINATION_CAPABILITIES] and no name prefix
    restriction, and its purge list holds only mapped ids that do not
    resolve. *)
Theorem get_destination_key_returns_fit_key (b : Bucket)
    (dst : ReplicationDestinationConfiguration) (s : St) :
  ∃ keys_to_purge key s',
    _get_destination_key b dst s = Ok ((keys_to_purge, key), s')
    ∧ fit_for_destination key
    ∧ ∀ id, id ∈ keys_to_purge →
        id ∈ Py.values (source_to_destination_key_mapping dst)
        ∧ get_key (Some id) s = None.
Proof.
  assert (Hstale : ∀ id,
    id ∈ filter (λ id, get_key (Some id) s = None)
           (Py.values (source_to_destination_key_mapping dst)) →
    id ∈ Py.values (source_to_destination_key_mapping dst)
    ∧ get_key (Some id) s = None).
  { intros id [Hnone Hin]%list_elem_of_filter. done. }
  destruct (get_destination_key_cases b dst s)
    as [(fit & id & _ & _ & Hfit & Hget)|(key & s' & _ & _ & Hfit & _ & Hget)].
  - eexists _, fit, s. done.
  - eexists _, key, s'. done.
Qed.

Lemma setitem_value_mapped {K V} `{EqDecision K} (k : K) (v : V) (d : Py.dict K V) :
  v ∈ Py.values (Py.setitem k v d).
Proof.
  unfold Py.values. induction d as [|[k0 v0] d IH]; simpl.
  - left.
  - destruct (decide (k0 = k)); simpl; [left|by right].
Qed.

(** X12: no second destination key: once [_get_destination_key] has
    returned a key and its id has been stored in the mapping under some
    source key id, a later call on that mapping, with a backend that still
    resolves the id to the key, selects a fit key, creates nothing and does
    not list the id as stale. *)
Theorem get_destination_key_creates_once (b : Bucket)
    (dst : ReplicationDestinationConfiguration) (s s1 : St) keys_to_purge key
    (b2 : Bucket) (source_key_id : string) (s2 : St) :
  _get_destination_key b dst s = Ok ((keys_to_purge, key), s1) →
  get_key (Some (key_id_ key)) s2 = Some key →
  ∃ keys_to_purge2 key2,
    _get_destination_key b2
      {| source_to_destination_key_mapping :=
           Py.setitem source_key_id (key_id_ key)
             (source_to_destination_key_mapping dst) |} s2
    = Ok ((keys_to_purge2, key2), s2)
    ∧ fit_for_destination key2
    ∧ key_id_ key ∉ keys_to_purge2.
Proof.
  intros Hfirst Hkey2.
  assert (Hfit : fit_for_destination key).
  { destruct (get_destination_key_cases b dst s)
      as [(fit & id & _ & _ & Hfit & Hget)|(k & s' & _ & _ & Hfit & _ & Hget)];
      rewrite Hget in Hfirst; by injection Hfirst as _ <- _. }
  set (dst2 := {| source_to_destination_key_mapping :=
                    Py.setitem source_key_id (key_id_ key)
                      (source_to_destination_key_mapping dst) |}).
  destruct (get_destination_key_cases b2 dst2 s2)
    as [(fit & id & _ & _ & Hfit2 & Hget)|(k & s' & Hnone & _)].
  - eexists _, fit. split; [exact Hget|]. split; [done|].
    intros [Hstale _]%list_elem_of_filter. congruence.
  - destruct (Hnone (key_id_ key) key); [|done..].
    apply setitem_value_mapped.
Qed.

(** X13: a destination key that [_get_destination_key] creates, which it
    does exactly when no mapped id resolves to a fit key, has a name of at
    most 100 characters: the bucket name and "-replidst" when the bucket
    name has at most 91 characters, and exactly 100 characters otherwise. *)
Theorem new_destination_key_name_bounded (b : Bucket)
    (dst : ReplicationDestinationConfiguration) (s : St) :
  (∀ id k, id ∈ Py.values (source_to_destination_key_mapping dst) →
           get_key (Some id) s = Some k → ¬ fit_for_destination k) →
  ∃ keys_to_purge key s',
    _get_destination_key b dst s = Ok ((keys_to_purge, key), s')
    ∧ (key, s') = create_key DEFAULT_DESTINATION_CAPABILITIES
                    (Py.slice_to 91 (name b) +:+ "-replidst") (id_ b) None s
    ∧ String.length (key_name key) ≤ 100
    ∧ (String.length (name b) ≤ 91 → key_name key = name b +:+ "-replidst")
    ∧ (91 ≤ String.length (name b) → String.length (key_name key) = 100).
Proof.
  intros Hnone.
  destruct (get_destination_key_cases b dst s)
    as [(fit & id & Hid & Hkey & Hfit & _)|(key & s' & _ & Hcreate & _ & Hname & Hget)].
  - by destruct (Hnone id fit).
  - eexists _, key, s'. split; [exact Hget|]. split; [done|]. rewrite Hname.
    by apply new_key_name_bounds.
Qed.

(** X14: a bucket with no destination side, also one with no replication
    configuration at all, does not make [setup_destination] raise: a
    destination key is created, and the submission keeps the bucket's
    source side and maps the one source key id to the id of that key. *)
Theorem setup_destination_on_unconfigured_bucket (source_key_id : string)
    (b : Bucket) (s : St) :
  replication b ≫= as_replication_destination = None →
  ∃ key s',
    (key, s') = create_key DEFAULT_DESTINATION_CAPABILITIES
                  (Py.slice_to 91 (name b) +:+ "-replidst") (id_ b) None s
    ∧ setup_destination source_key_id b s
      = update b (revision b)
          {| as_replication_source := replication b ≫= as_replication_source;
             as_replication_destination :=
               Some {| source_to_destination_key_mapping :=
                         [(source_key_id, key_id_ key)] |} |} s'.
Proof.
  intros Hnone.
  destruct (get_destination_key_cases b
    {| source_to_destination_key_mapping := [] |} s)
    as [(fit & id & Hid & _)|(key & s' & _ & Hcreate & _ & _ & Hget)].
  - by apply not_elem_of_nil in Hid.
  - exists key, s'. split; [done|].
    unfold setup_destination. rewrite Hnone.
    rewrite (bind_Ok _ _ _ _ _ Hget). simpl.
    by destruct (replication b).
Qed.

End MoreKeys.

(** *** Source side, end to end *)

Section MoreSetupSource.
Variables DEFAULT_PRIORITY MAX_PRIORITY : Z.
Variable checks : ReplicationRule → bool.
Context {St : Type} `{!B2Api St}.

(** X15: when the bucket's current source key resolves to a key with all
    of [DEFAULT_SOURCE_CAPABILITIES] and no name prefix, [setup_source]
    creates no key: [_get_source_key] returns that key and leaves the
    backend as it found it; the new rule is built, and if the constructor
    accepts it the update is reached with that backend and submits the id
    of that key with the extended rule list, and if not, [ValueError] is
    raised. *)
Theorem setup_source_reuses_current_key fuel (b d : Bucket) prefix name' priority
    ief (s : St) cfg src id k :
  replication b = Some cfg →
  as_replication_source cfg = Some src →
  source_application_key_id src = Some id →
  get_key (Some id) s = Some k →
  fit_for_source k →
  length (rules src) < fuel →
  ∃ new_rr,
    _get_source_key b (default "" prefix) (Some cfg) (rules src) s = Ok (Some k, s)
    ∧ _get_new_rule_name fuel (rules src) d name' = Some (rule_name new_rr)
    ∧ rule_priority new_rr
      = _get_priority_for_new_rule DEFAULT_PRIORITY MAX_PRIORITY (rules src) priority
    ∧ destination_bucket_id new_rr = id_ d
    ∧ setup_source DEFAULT_PRIORITY MAX_PRIORITY checks fuel b d prefix name' priority
        ief s
      = if rule_accepted MAX_PRIORITY checks new_rr
        then update b (revision b)
               {| as_replication_source :=
                    Some {| source_application_key_id := Some (key_id_ k);
                            rules := rules src ++ [new_rr] |};
                  as_replication_destination := as_replication_destination cfg |} s
        else Raise ValueError.
Proof.
  intros Hcfg Hsrc Hid Hkey [Hcaps Hprefix] Hfuel.
  assert (Hget : _get_source_key b (default "" prefix) (Some cfg) (rules src) s
                 = Ok (Some k, s)).
  { rewrite (get_source_key_unfold b _ cfg src (rules src) s Hsrc).
    rewrite (should_make_new_source_key_unfold cfg src _ Hsrc), Hid, Hkey.
    apply truthy_false_iff in Hprefix as ->.
    apply has_capabilities_true_iff in Hcaps as ->. done. }
  destruct (get_new_rule_name_returns fuel (rules src) d name' Hfuel)
    as (n & Hname & _).
  exists {| rule_name := n;
            rule_priority :=
              _get_priority_for_new_rule DEFAULT_PRIORITY MAX_PRIORITY (rules src)
                priority;
            destination_bucket_id := id_ d;
            file_name_prefix := default "" prefix;
            include_existing_files := ief |}.
  split; [exact Hget|]. split; [exact Hname|]. do 2 (split; [reflexivity|]).
  apply (setup_source_with_key_and_name DEFAULT_PRIORITY MAX_PRIORITY checks
    fuel b d prefix name' priority ief s s cfg src k n Hcfg Hsrc Hget Hname).
Qed.

(** X16: with no explicit name, [setup_source] keeps rule names unique:
    when the names of the current rules are pairwise distinct, so are the
    names of the old rules and the new one, which is the rule list that is
    submitted if the constructor accepts the new rule; if it does not,
    [ValueError] is raised and nothing is submitted. *)
Theorem setup_source_keeps_rule_names_unique fuel (b d : Bucket) prefix priority
    ief (s : St) cfg src :
  replication b = Some cfg →
  as_replication_source cfg = Some src →
  length (rules src) < fuel →
  NoDup (rule_name <$> rules src) →
  ∃ source_key s' new_rr,
    NoDup (rule_name <$> rules src ++ [new_rr])
    ∧ setup_source DEFAULT_PRIORITY MAX_PRIORITY checks fuel b d prefix None priority
        ief s
      = if rule_accepted MAX_PRIORITY checks new_rr
        then update b (revision b)
               {| as_replication_source :=
                    Some {| source_application_key_id := Some (key_id_ source_key);
                            rules := rules src ++ [new_rr] |};
                  as_replication_destination := as_replication_destination cfg |} s'
        else Raise ValueError.
Proof.
  intros Hcfg Hsrc Hfuel Hunique.
  destruct (setup_source_with_source_side DEFAULT_PRIORITY MAX_PRIORITY checks
    fuel b d prefix None priority ief s cfg src Hcfg Hsrc Hfuel)
    as (source_key & s' & new_rr & _ & _ & Hfresh & _ & _ & _ & _ & Hsubmit).
  exists source_key, s', new_rr. split; [|exact Hsubmit].
  rewrite fmap_app. apply NoDup_app. split; [done|]. split.
  - intros x Hx [->|[]%not_elem_of_nil]%elem_of_cons. by apply Hfresh.
  - apply NoDup_singleton.
Qed.

End MoreSetupSource.

(** ** The further properties on concrete inputs *)

Section MoreConcrete.
Import Simulator.

Lemma no_slash_in_bucket : ¬ has_slash "bucket".
Proof.
  unfold has_slash. apply (bool_decide_unpack _). vm_compute. exact I.
Defined.

(** X2, on the bucket "bucket" and the path "photos/2022/cat.jpg". *)
Lemma partion_bucket_path_of_join_sample :
  ¬ has_slash "bucket"
  ∧ _partion_bucket_path "bucket/photos/2022/cat.jpg"
    = ("bucket", "photos/2022/cat.jpg").
Proof.
  split; [exact no_slash_in_bucket|].
  exact (partion_bucket_path_of_join "bucket" "photos/2022/cat.jpg" no_slash_in_bucket).
Defined.

(** X3, on the bucket "bucket". *)
Lemma partion_bucket_path_trailing_slash_sample :
  ¬ has_slash "bucket"
  ∧ _partion_bucket_path "bucket/" = _partion_bucket_path "bucket".
Proof.
  split; [exact no_slash_in_bucket|].
  exact (proj1 (partion_bucket_path_trailing_slash "bucket" no_slash_in_bucket)).
Defined.

Lemma sample_rules_leave_room :
  ∀ rr, rr ∈ sample_rules → (rule_priority rr + 5 ≤ MAX_PRIORITY)%Z.
Proof.
  apply Forall_forall. repeat constructor; unfold MAX_PRIORITY; simpl; lia.
Defined.

(** X5, on the rules of priorities 128 and 133. *)
Lemma get_priority_for_new_rule_above_sample_rules :
  sample_rules ≠ []
  ∧ (∀ rr, rr ∈ sample_rules → (rule_priority rr + 5 ≤ MAX_PRIORITY)%Z)
  ∧ ∀ rr, rr ∈ sample_rules →
      (rule_priority rr + 5
       ≤ _get_priority_for_new_rule DEFAULT_PRIORITY MAX_PRIORITY sample_rules None)%Z.
Proof.
  split; [discriminate|]. split; [exact sample_rules_leave_room|].
  exact (proj2 (get_priority_for_new_rule_above_existing DEFAULT_PRIORITY
    MAX_PRIORITY sample_rules ltac:(discriminate) sample_rules_leave_room)).
Defined.

(** X6, on rules of which one has the priority [MAX_PRIORITY]. *)
Lemma get_priority_for_new_rule_capped_sample :
  capped_rules ≠ []
  ∧ (_get_priority_for_new_rule DEFAULT_PRIORITY MAX_PRIORITY capped_rules None
     ≤ MAX_PRIORITY)%Z.
Proof.
  split; [discriminate|].
  exact (proj1 (get_priority_for_new_rule_capped DEFAULT_PRIORITY MAX_PRIORITY
    capped_rules ltac:(discriminate))).
Defined.

Lemma src_1_is_free : name empty_source_bucket ∉ rule_name <$> sample_rules.
Proof. apply (bool_decide_unpack _). vm_compute. exact I. Defined.

(** X7, on the rules named "dest-1" and "dest-12" and the bucket "src-1". *)
Lemma first_rule_for_src_1 :
  0 < 1
  ∧ (name empty_source_bucket ∉ rule_name <$> sample_rules)
  ∧ _get_new_rule_name 1 sample_rules empty_source_bucket None = Some "src-1".
Proof.
  assert (Hfuel : 0 < 1) by lia.
  split; [exact Hfuel|]. split; [exact src_1_is_free|].
  exact (proj2 (first_rule_for_a_bucket_takes_its_name 1 sample_rules
    empty_source_bucket Hfuel) src_1_is_free).
Defined.

(** X8, on a source side whose key has a name prefix. *)
Lemma get_source_key_returns_fit_key_sample :
  as_replication_source prefixed_source_configuration = Some prefixed_source_side
  ∧ ∃ key s',
      _get_source_key configured_source_bucket "photos/"
        (Some prefixed_source_configuration) sample_rules backend0
      = Ok (Some key, s')
      ∧ fit_for_source key.
Proof.
  split; [reflexivity|].
  exact (get_source_key_returns_fit_key configured_source_bucket "photos/"
    prefixed_source_configuration prefixed_source_side sample_rules backend0 eq_refl).
Defined.

(** X9, on the configured source bucket, whose key "K1" is returned and
    then returned again. *)
Lemma get_source_key_reuses_returned_key_sample :
  _get_source_key configured_source_bucket "x/"
    (Some configured_source_configuration) sample_rules backend0
  = Ok (Some full_source_key, backend0)
  ∧ _get_source_key long_named_bucket "y/"
      (Some configured_source_configuration) [] backend0
    = Ok (Some full_source_key, backend0).
Proof.
  assert (Hfirst : _get_source_key configured_source_bucket "x/"
                     (Some configured_source_configuration) sample_rules backend0
                   = Ok (Some full_source_key, backend0)).
  { vm_compute. reflexivity. }
  split; [exact Hfirst|].
  exact (get_source_key_reuses_returned_key configured_source_bucket "x/"
    configured_source_configuration configured_source_side sample_rules
    backend0 backend0 full_source_key long_named_bucket "y/"
    configured_source_configuration configured_source_side [] backend0
    eq_refl Hfirst eq_refl eq_refl eq_refl).
Defined.

(** X10, on a bucket with a name of more than 91 characters. *)
Lemma new_source_key_name_bounded_sample :
  as_replication_source prefixed_source_configuration = Some prefixed_source_side
  ∧ _should_make_new_source_key prefixed_source_configuration
      (get_key (source_application_key_id prefixed_source_side) backend0)
    = Ok true
  ∧ 91 ≤ String.length (name long_named_bucket)
  ∧ ∃ key s',
      _get_source_key long_named_bucket ""
        (Some prefixed_source_configuration) sample_rules backend0
      = Ok (Some key, s')
      ∧ String.length (key_name key) = 100.
Proof.
  assert (Hlong : 91 ≤ String.length (name long_named_bucket)).
  { vm_compute. repeat constructor. }
  assert (Hdecision : _should_make_new_source_key prefixed_source_configuration
    (get_key (source_application_key_id prefixed_source_side) backend0) = Ok true).
  { vm_compute. reflexivity. }
  split; [reflexivity|]. split; [exact Hdecision|]. split; [exact Hlong|].
  destruct (new_source_key_name_bounded long_named_bucket ""
    prefixed_source_configuration prefixed_source_side sample_rules backend0
    eq_refl Hdecision) as (key & s' & Hget & _ & _ & Hexact).
  exists key, s'. split; [exact Hget|exact (Hexact Hlong)].
Defined.

(** X12, on the destination bucket: the key "K5" is returned, stored under
    the source key id "K1", and selected again. *)
Lemma get_destination_key_creates_once_sample :
  _get_destination_key destination_bucket
    {| source_to_destination_key_mapping := [("S2", "gone"); ("S4", "K5")] |}
    backend0
  = Ok ((["gone"], destination_key_b), backend0)
  ∧ get_key (Some (key_id_ destination_key_b)) backend0 = Some destination_key_b
  ∧ ∃ keys_to_purge2 key2,
      _get_destination_key destination_bucket
        {| source_to_destination_key_mapping :=
             Py.setitem "K1" (key_id_ destination_key_b)
               [("S2", "gone"); ("S4", "K5")] |} backend0
      = Ok ((keys_to_purge2, key2), backend0)
      ∧ fit_for_destination key2.
Proof.
  assert (Hfirst : _get_destination_key destination_bucket
    {| source_to_destination_key_mapping := [("S2", "gone"); ("S4", "K5")] |}
    backend0 = Ok ((["gone"], destination_key_b), backend0)).
  { vm_compute. reflexivity. }
  split; [exact Hfirst|]. split; [reflexivity|].
  destruct (get_destination_key_creates_once destination_bucket _ backend0 backend0
    ["gone"] destination_key_b destination_bucket "K1" backend0 Hfirst eq_refl)
    as (keys_to_purge2 & key2 & Hget & Hfit & _).
  exists keys_to_purge2, key2. split; [exact Hget|exact Hfit].
Defined.

Lemma weak_destination_side_has_no_fit_key :
  ∀ id k, id ∈ Py.values (source_to_destination_key_mapping weak_destination_side) →
          get_key (Some id) backend0 = Some k → ¬ fit_for_destination k.
Proof.
  intros id k Hid Hkey.
  assert (Hcases : id = "gone" ∨ id = "K3").
  { apply elem_of_cons in Hid as [->|Hid]; [by left|].
    apply list_elem_of_singleton in Hid as ->. by right. }
  destruct Hcases as [->| ->].
  - discriminate Hkey.
  - injection Hkey as <-.
    apply (bool_decide_unpack _). vm_compute. exact I.
Defined.

(** X13, on a bucket with a name of more than 91 characters whose only
    resolvable mapped key lacks capabilities. *)
Lemma new_destination_key_name_bounded_sample :
  (∀ id k, id ∈ Py.values (source_to_destination_key_mapping weak_destination_side) →
           get_key (Some id) backend0 = Some k → ¬ fit_for_destination k)
  ∧ ∃ keys_to_purge key s',
      _get_destination_key long_named_bucket weak_destination_side backend0
      = Ok ((keys_to_purge, key), s')
      ∧ String.length (key_name key) ≤ 100.
Proof.
  split; [exact weak_destination_side_has_no_fit_key|].
  destruct (new_destination_key_name_bounded long_named_bucket
    weak_destination_side backend0 weak_destination_side_has_no_fit_key)
    as (keys_to_purge & key & s' & Hget & _ & Hbound & _).
  exists keys_to_purge, key, s'. split; [exact Hget|exact Hbound].
Defined.

(** X14, on a bucket with no replication configuration. *)
Lemma setup_destination_on_empty_bucket :
  replication empty_source_bucket ≫= as_replication_destination = None
  ∧ ∃ key s',
      setup_destination "K1" empty_source_bucket backend0
      = update empty_source_bucket (revision empty_source_bucket)
          {| as_replication_source := None;
             as_replication_destination :=
               Some {| source_to_destination_key_mapping :=
                         [("K1", key_id_ key)] |} |} s'.
Proof.
  split; [reflexivity|].
  destruct (setup_destination_on_unconfigured_bucket "K1" empty_source_bucket
    backend0 eq_refl) as (key & s' & _ & Hsubmit).
  exists key, s'. exact Hsubmit.
Defined.

Lemma full_source_key_is_fit : fit_for_source full_source_key.
Proof.
  split; [|left; reflexivity].
  apply (proj1 (has_capabilities_true_iff full_source_key DEFAULT_SOURCE_CAPABILITIES)).
  vm_compute. reflexivity.
Defined.

(** X15, on the configured source bucket and its key "K1". *)
Lemma setup_source_reuses_current_key_sample :
  fit_for_source full_source_key
  ∧ length (rules configured_source_side) < 5
  ∧ ∃ new_rr,
      _get_source_key configured_source_bucket "x/"
        (Some configured_source_configuration) sample_rules backend0
      = Ok (Some full_source_key, backend0)
      ∧ setup_source DEFAULT_PRIORITY MAX_PRIORITY sample_checks 5
          configured_source_bucket destination_bucket (Some "x/") None None false
          backend0
        = update configured_source_bucket (revision configured_source_bucket)
            {| as_replication_source :=
                 Some {| source_application_key_id := Some "K1";
                         rules := sample_rules ++ [new_rr] |};
               as_replication_destination :=
                 as_replication_destination configured_source_configuration |}
            backend0.
Proof.
  assert (Hfuel : length (rules configured_source_side) < 5) by (simpl; lia).
  assert (Hkey : get_key (Some "K1") backend0 = Some full_source_key)
    by reflexivity.
  split; [exact full_source_key_is_fit|]. split; [exact Hfuel|].
  destruct (setup_source_reuses_current_key DEFAULT_PRIORITY MAX_PRIORITY
    sample_checks 5 configured_source_bucket destination_bucket (Some "x/") None
    None false backend0 configured_source_configuration configured_source_side
    "K1" full_source_key eq_refl eq_refl eq_refl Hkey full_source_key_is_fit
    Hfuel) as (new_rr & Hget & Hname & Hpriority & Hid & Hsubmit).
  exists new_rr. split; [exact Hget|].
  destruct new_rr as [n p bucket_id file_prefix flag]. simpl in Hname, Hpriority, Hid.
  vm_compute in Hname. injection Hname as <-. subst p bucket_id.
  match type of Hsubmit with
  | _ = (if ?accepted then _ else _) =>
      assert (Haccepted : accepted = true) by (vm_compute; reflexivity);
      rewrite Haccepted in Hsubmit
  end.
  exact Hsubmit.
Defined.

Lemma sample_rule_names_unique : NoDup (rule_name <$> rules configured_source_side).
Proof. apply (bool_decide_unpack _). vm_compute. exact I. Defined.

(** X16, on the configured source bucket. *)
Lemma setup_source_keeps_rule_names_unique_sample :
  length (rules configured_source_side) < 5
  ∧ NoDup (rule_name <$> rules configured_source_side)
  ∧ ∃ new_rr, NoDup (rule_name <$> rules configured_source_side ++ [new_rr]).
Proof.
  assert (Hfuel : length (rules configured_source_side) < 5) by (simpl; lia).
  split; [exact Hfuel|]. split; [exact sample_rule_names_unique|].
  destruct (setup_source_keeps_rule_names_unique DEFAULT_PRIORITY MAX_PRIORITY
    sample_checks 5 configured_source_bucket destination_bucket (Some "x/") None
    false backend0 configured_source_configuration configured_source_side eq_refl
    eq_refl Hfuel sample_rule_names_unique)
    as (source_key & s' & new_rr & Hunique & _).
  exists new_rr. exact Hunique.
Defined.

End MoreConcrete.
